(** * obsidian-copy-to-mp: a shallow embedding of the plugin and its properties

    The plugin renders a Markdown note to a DOM tree, waits for the renderer
    to settle, rewrites the tree (images to data URIs, inline styles) and puts
    the resulting HTML on the clipboard.  This development embeds the pure
    parts of the plugin's main module as Rocq functions, the stateful parts
    (the three module-level variables, promises, the DOM) as explicit state,
    and takes what the browser and Obsidian provide (image decoding, the
    vault, the CSS selector engine, the style catalogue of [styles_temp.js])
    as parameters.  The first part holds the definitions, module by module
    in the order of the pipeline; the second part holds the properties.

    JavaScript strings are modelled as [string] (a sequence of bytes): for
    ASCII text this is the sequence of UTF-16 code units the program sees. *)

From Stdlib Require Import ZArith QArith Lia Bool Ascii String List Permutation Sorted.
From stdpp Require Import base option gmap strings.

Set Warnings "-comment-terminator-in-string".

(** stdpp keeps [simpl] away from string concatenation; the proofs below
    compute with it. *)
#[local] Arguments String.append !s1 s2 : simpl nomatch.

Local Open Scope string_scope.
Local Open Scope Z_scope.

(* ================================================================== *)
(** * JavaScript string primitives used by the source *)
(* ================================================================== *)

Module JS.

(** [s.length], as a JavaScript number. *)
Definition len (s : string) : Z := Z.of_nat (String.length s).

Fixpoint drop (n : nat) (s : string) : string :=
  match n, s with
  | O, _ => s
  | S n', String _ s' => drop n' s'
  | S _, EmptyString => EmptyString
  end.

Fixpoint take (n : nat) (s : string) : string :=
  match n, s with
  | O, _ => EmptyString
  | S n', String c s' => String c (take n' s')
  | S _, EmptyString => EmptyString
  end.

(** [s.slice(start)]: a negative [start] counts from the end, and the
    result is clamped to the string. *)
Definition slice (s : string) (start : Z) : string :=
  let from := if start <? 0 then Z.max (len s + start) 0 else Z.min start (len s) in
  drop (Z.to_nat from) s.

(** [s.substring(start)] for a non-negative [start]. *)
Definition substring_from (s : string) (start : Z) : string :=
  drop (Z.to_nat (Z.min (Z.max start 0) (len s))) s.

Fixpoint lastIndexOf_from (c : ascii) (i last : Z) (s : string) : Z :=
  match s with
  | EmptyString => last
  | String d s' => lastIndexOf_from c (i + 1) (if Ascii.eqb d c then i else last) s'
  end.

(** [s.lastIndexOf(c)] for a one-character pattern: -1 when absent. *)
Definition lastIndexOf (s : string) (c : ascii) : Z := lastIndexOf_from c 0 (-1) s.

(** [p] is a prefix of [s]. *)
Fixpoint isPrefix (p s : string) {struct p} : bool :=
  match p with
  | EmptyString => true
  | String a p' =>
      match s with
      | EmptyString => false
      | String b s' => Ascii.eqb a b && isPrefix p' s'
      end
  end.

(** [s.startsWith(p)]. *)
Definition startsWith (s p : string) : bool := isPrefix p s.

(** [a || b] on numbers: 0 is falsy. *)
Definition or_num (a b : Z) : Z := if a =? 0 then b else a.

(** [a || b] on strings: the empty string is falsy. *)
Definition or_str (a b : string) : string :=
  match a with EmptyString => b | _ => a end.

(** [a || b] where [a] may be [undefined]. *)
Definition or_undef (a : option string) (b : string) : string :=
  match a with Some v => or_str v b | None => b end.

Definition lower_ascii (c : ascii) : ascii :=
  let n := nat_of_ascii c in
  if (Nat.leb 65 n && Nat.leb n 90)%bool then ascii_of_nat (n + 32) else c.

(** [s.toLowerCase()] on the ASCII letters; bytes of other characters are
    kept. *)
Fixpoint toLowerCase (s : string) : string :=
  match s with
  | EmptyString => EmptyString
  | String c s' => String (lower_ascii c) (toLowerCase s')
  end.

(** The character [c] occurs in [s]. *)
Fixpoint has_char (c : ascii) (s : string) : bool :=
  match s with
  | EmptyString => false
  | String d s' => Ascii.eqb d c || has_char c s'
  end.

End JS.

(* ================================================================== *)
(** * Mime types: [DocumentRenderer.guessMimeType] *)
(* ================================================================== *)

Module Mime.
Import JS.

(** [mimeMap]: only the types that differ from [image/${extension}]. *)
Definition mimeMap : gmap string string :=
  <["svg" := "image/svg+xml"]> (<["jpg" := "image/jpeg"]> ∅).

(** [getExtension]: lower-case extension of a path. *)
Definition getExtension (filePath : string) : string :=
  let fileName := slice filePath (lastIndexOf filePath "/" + 1) in
  toLowerCase (slice fileName (or_num (lastIndexOf fileName "." + 1) (len fileName))).

Definition guessMimeType (filePath : string) : string :=
  let extension := or_str (getExtension filePath) "png" in
  or_undef (mimeMap !! extension) ("image/" ++ extension).

Definition isSvg (mimeType : string) : bool := String.eqb mimeType "image/svg+xml".

(** [seg] is the last [/]-delimited segment of [path]. *)
Definition lastSegment (path seg : string) : Prop :=
  has_char "/" seg = false /\
  (path = seg \/ exists dir, path = dir ++ String "/" seg).

(** The mime type the specification gives an extension (in lower case; the
    empty string stands for no extension). *)
Definition mimeOfExtension (ext : string) : string :=
  if String.eqb ext "" then "image/png"
  else if String.eqb ext "svg" then "image/svg+xml"
  else if String.eqb ext "jpg" then "image/jpeg"
  else "image/" ++ ext.

End Mime.

(* ================================================================== *)
(** * Regular expressions, as [String.prototype.replace] runs them *)
(* ================================================================== *)

(** A backtracking matcher for the fragment of ECMAScript regular
    expressions the source uses, with the [g] and [m] flags: greedy and lazy
    repetition, alternation, capture groups, character classes and the
    multi-line anchors. *)
Module Regex.

Inductive re : Type :=
  | Eps
  | Chr (p : ascii -> bool)
  | Bol
  | Eol
  | Eoi
  | Seq (a b : re)
  | Alt (a b : re)
  | Star (greedy : bool) (a : re)
  | Grp (n : nat) (a : re).

(** [Bol] and [Eol] are [^] and [$] under the [m] flag; [Eoi] is [$]
    without it. *)

(** [a+] and [a+?]. *)
Definition Plus (a : re) : re := Seq a (Star true a).
Definition PlusLazy (a : re) : re := Seq a (Star false a).
Definition Lit (c : ascii) : re := Chr (Ascii.eqb c).

Definition code (c : ascii) : nat := nat_of_ascii c.

(** Line terminators among the bytes: LF and CR. *)
Definition is_line_terminator (c : ascii) : bool :=
  (Nat.eqb (code c) 10 || Nat.eqb (code c) 13)%bool.

(** [\s] on bytes: TAB, LF, VT, FF, CR and space. *)
Definition is_space (c : ascii) : bool :=
  ((Nat.leb 9 (code c) && Nat.leb (code c) 13) || Nat.eqb (code c) 32)%bool.

(** [\d]. *)
Definition is_digit (c : ascii) : bool :=
  (Nat.leb 48 (code c) && Nat.leb (code c) 57)%bool.

(** [.] without the [s] flag. *)
Definition is_dot (c : ascii) : bool := negb (is_line_terminator c).

(** [[^:\n]]. *)
Definition not_colon_nl (c : ascii) : bool :=
  negb (Nat.eqb (code c) 58 || Nat.eqb (code c) 10)%bool.

(** The matcher's state: the character before the current position, the
    input from the current position on, the position, and the captures. *)
Record mstate : Type := MState {
  prev : option ascii;
  rest : string;
  pos : nat;
  caps : list (nat * string)
}.

Definition advance (s : mstate) : option (ascii * mstate) :=
  match rest s with
  | EmptyString => None
  | String c r => Some (c, MState (Some c) r (S (pos s)) (caps s))
  end.

(** [^] with the [m] flag. *)
Definition at_bol (s : mstate) : bool :=
  match prev s with None => true | Some c => is_line_terminator c end.

(** [$] with the [m] flag. *)
Definition at_eol (s : mstate) : bool :=
  match rest s with EmptyString => true | String c _ => is_line_terminator c end.

Definition set_cap (n : nat) (v : string) (s : mstate) : mstate :=
  MState (prev s) (rest s) (pos s) ((n, v) :: caps s).

Fixpoint get_cap (n : nat) (cs : list (nat * string)) : option string :=
  match cs with
  | nil => None
  | (m, v) :: cs' => if Nat.eqb m n then Some v else get_cap n cs'
  end.

(** [run r s k]: match [r] at [s], then continue with [k]; alternatives are
    tried in the order of the ECMAScript semantics, and an iteration of a
    repetition that consumes nothing is rejected. *)
Fixpoint run (r : re) (s : mstate) (k : mstate -> option mstate) {struct r}
  : option mstate :=
  match r with
  | Eps => k s
  | Chr p =>
      match advance s with
      | Some (c, s') => if p c then k s' else None
      | None => None
      end
  | Bol => if at_bol s then k s else None
  | Eol => if at_eol s then k s else None
  | Eoi => match rest s with EmptyString => k s | _ => None end
  | Seq a b => run a s (fun s1 => run b s1 k)
  | Alt a b =>
      match run a s k with
      | Some x => Some x
      | None => run b s k
      end
  | Star g a =>
      (fix loop (fuel : nat) (s : mstate) {struct fuel} : option mstate :=
         match fuel with
         | O => k s
         | S f =>
             if g then
               match run a s (fun s1 => if Nat.ltb (pos s) (pos s1) then loop f s1 else None) with
               | Some x => Some x
               | None => k s
               end
             else
               match k s with
               | Some x => Some x
               | None => run a s (fun s1 => if Nat.ltb (pos s) (pos s1) then loop f s1 else None)
               end
         end) (S (String.length (rest s))) s
  | Grp n a =>
      run a s (fun s1 => k (set_cap n (JS.take (pos s1 - pos s) (rest s)) s1))
  end.

(** One attempt at the current position, with fresh captures. *)
Definition exec_here (r : re) (s : mstate) : option mstate :=
  run r (MState (prev s) (rest s) (pos s) nil) Some.

(** A replacement template: literal text and [$n] references. *)
Inductive piece : Type :=
  | Text (t : string)
  | Ref (n : nat).

Fixpoint expand (tpl : list piece) (cs : list (nat * string)) : string :=
  match tpl with
  | nil => EmptyString
  | Text t :: tpl' => t ++ expand tpl' cs
  | Ref n :: tpl' =>
      match get_cap n cs with Some v => v | None => EmptyString end ++ expand tpl' cs
  end.

(** [content.replace(/r/gm, tpl)]: the matches are found from left to right,
    each search starting where the previous match ended (one character
    further after an empty match). *)
Fixpoint replace_from (fuel : nat) (r : re) (tpl : list piece) (s : mstate) : string :=
  match fuel with
  | O => rest s
  | S f =>
      match exec_here r s with
      | Some s' =>
          if Nat.ltb (pos s) (pos s') then
            expand tpl (caps s') ++ replace_from f r tpl (MState (prev s') (rest s') (pos s') nil)
          else
            expand tpl (caps s') ++
            match advance s with
            | Some (c, s1) => String c (replace_from f r tpl s1)
            | None => EmptyString
            end
      | None =>
          match advance s with
          | Some (c, s1) => String c (replace_from f r tpl s1)
          | None => EmptyString
          end
      end
  end.

Definition replace_all (r : re) (tpl : list piece) (content : string) : string :=
  replace_from (S (String.length content)) r tpl (MState None content 0 nil).

(** [content.replace(/r/, tpl)] without the [g] flag: the leftmost match
    only. *)
Fixpoint replace_first_from (fuel : nat) (r : re) (tpl : list piece) (s : mstate) : string :=
  match fuel with
  | O => rest s
  | S f =>
      match exec_here r s with
      | Some s' => expand tpl (caps s') ++ rest s'
      | None =>
          match advance s with
          | Some (c, s1) => String c (replace_first_from f r tpl s1)
          | None => EmptyString
          end
      end
  end.

Definition replace_first (r : re) (tpl : list piece) (content : string) : string :=
  replace_first_from (S (String.length content)) r tpl (MState None content 0 nil).

End Regex.

(* ================================================================== *)
(** * The list normalizer: [preprocessMarkdownList] *)
(* ================================================================== *)

Module ListNormalizer.
Import Regex.

(** The list marker all four patterns start with, "\s*(?:\d+\.|-|\*)\s+". *)
Definition marker : re :=
  Seq (Star true (Chr is_space))
      (Seq (Alt (Seq (Plus (Chr is_digit)) (Lit "."))
                (Alt (Lit "-") (Lit "*")))
           (Plus (Chr is_space))).

Definition nl : re := Lit "010".

(** The tail of all four patterns, "(.+?)$". *)
Definition tail : re := Seq (Grp 2 (PlusLazy (Chr is_dot))) Eol.

(** "/^(\s*(?:\d+\.|-|\*)\s+[^:\n]+)\n\s*:\s*(.+?)$/gm" *)
Definition rule1 : re :=
  Seq Bol (Seq (Grp 1 (Seq marker (Plus (Chr not_colon_nl))))
    (Seq nl (Seq (Star true (Chr is_space)) (Seq (Lit ":")
      (Seq (Star true (Chr is_space)) tail))))).

(** "/^(\s*(?:\d+\.|-|\*)\s+.+?:)\s*\n\s+(.+?)$/gm" *)
Definition rule2 : re :=
  Seq Bol (Seq (Grp 1 (Seq marker (Seq (PlusLazy (Chr is_dot)) (Lit ":"))))
    (Seq (Star true (Chr is_space)) (Seq nl (Seq (Plus (Chr is_space)) tail)))).

(** "/^(\s*(?:\d+\.|-|\*)\s+[^:\n]+)\n:\s*(.+?)$/gm" *)
Definition rule3 : re :=
  Seq Bol (Seq (Grp 1 (Seq marker (Plus (Chr not_colon_nl))))
    (Seq nl (Seq (Lit ":") (Seq (Star true (Chr is_space)) tail)))).

(** "/^(\s*(?:\d+\.|-|\*)\s+.+?)\n\n\s+(.+?)$/gm" *)
Definition rule4 : re :=
  Seq Bol (Seq (Grp 1 (Seq marker (PlusLazy (Chr is_dot))))
    (Seq nl (Seq nl (Seq (Plus (Chr is_space)) tail)))).

(** ['$1: $2'] and ['$1 $2']. *)
Definition tpl_colon : list piece := Ref 1 :: Text ": " :: Ref 2 :: nil.
Definition tpl_space : list piece := Ref 1 :: Text " " :: Ref 2 :: nil.

Definition preprocessMarkdownList (content : string) : string :=
  let content := replace_all rule1 tpl_colon content in
  let content := replace_all rule2 tpl_space content in
  let content := replace_all rule3 tpl_colon content in
  let content := replace_all rule4 tpl_space content in
  content.

End ListNormalizer.

(* ================================================================== *)
(** * The HTML template: [expandHtmlTemplate] *)
(* ================================================================== *)

Module Template.

Definition nl : string := String "010" EmptyString.
Definition dquote : string := String "034" EmptyString.

(** [DEFAULT_HTML_TEMPLATE], line by line. *)
Definition DEFAULT_HTML_TEMPLATE : string :=
  "<!DOCTYPE html>" ++ nl ++
  "<html>" ++ nl ++
  "<head>" ++ nl ++
  "  <meta charset=" ++ dquote ++ "utf-8" ++ dquote ++ ">" ++ nl ++
  "  <title>${title}</title>" ++ nl ++
  "  <style>" ++ nl ++
  "    ${MERMAID_STYLESHEET}" ++ nl ++
  "    ${stylesheet}" ++ nl ++
  "  </style>" ++ nl ++
  "</head>" ++ nl ++
  "<body>" ++ nl ++
  "${body}" ++ nl ++
  "</body>" ++ nl ++
  "</html>" ++ nl.

(** The text of the template around its placeholders. *)
Definition before_title : string :=
  "<!DOCTYPE html>" ++ nl ++
  "<html>" ++ nl ++
  "<head>" ++ nl ++
  "  <meta charset=" ++ dquote ++ "utf-8" ++ dquote ++ ">" ++ nl ++
  "  <title>".

Definition title_to_stylesheet : string :=
  "</title>" ++ nl ++
  "  <style>" ++ nl ++
  "    ${MERMAID_STYLESHEET}" ++ nl ++
  "    ".

Definition stylesheet_to_body : string :=
  nl ++ "  </style>" ++ nl ++ "</head>" ++ nl ++ "<body>" ++ nl.

Definition after_body : string :=
  nl ++ "</body>" ++ nl ++ "</html>" ++ nl.

(** [pat] occurs in [s]. *)
Definition occurs (pat s : string) : Prop :=
  exists x y, s = x ++ pat ++ y.

(** The first occurrence of [pat] in [s]: what precedes it and what
    follows it. *)
Fixpoint find (pat s : string) : option (string * string) :=
  if JS.isPrefix pat s then Some (EmptyString, JS.drop (String.length pat) s)
  else
    match s with
    | EmptyString => None
    | String c s' =>
        match find pat s' with
        | Some (pre, post) => Some (String c pre, post)
        | None => None
        end
    end.

(** GetSubstitution for a string pattern (no capture groups): in the
    replacement text, [$$] is a dollar sign, [$&] the matched text, [$`] the
    text before the match and [$'] the text after it; any other [$] is
    literal. *)
Fixpoint getSubstitution (matched pre post rep : string) : string :=
  match rep with
  | EmptyString => EmptyString
  | String c r =>
      if Ascii.eqb c "$" then
        match r with
        | EmptyString => String c EmptyString
        | String d r' =>
            if Ascii.eqb d "$" then String "$" (getSubstitution matched pre post r')
            else if Ascii.eqb d "&" then matched ++ getSubstitution matched pre post r'
            else if Ascii.eqb d "`" then pre ++ getSubstitution matched pre post r'
            else if Ascii.eqb d "'" then post ++ getSubstitution matched pre post r'
            else String c (getSubstitution matched pre post r)
        end
      else String c (getSubstitution matched pre post r)
  end.

(** [s.replace(pat, rep)] for a string pattern: only the first occurrence is
    replaced. *)
Definition replace (s pat rep : string) : string :=
  match find pat s with
  | None => s
  | Some (pre, post) => pre ++ getSubstitution pat pre post rep ++ post
  end.

(** [expandHtmlTemplate(html, title)]; [styleSheet] is
    [this.settings.styleSheet]. *)
Definition expandHtmlTemplate (styleSheet html title : string) : string :=
  replace
    (replace
       (replace DEFAULT_HTML_TEMPLATE "${title}" title)
       "${body}" html)
    "${stylesheet}" styleSheet.

(** The document [doCopy] hands to the later passes. *)
Definition htmlDocument (bareHtmlOnly : bool) (styleSheet outerHTML title : string)
  : string :=
  if bareHtmlOnly then outerHTML else expandHtmlTemplate styleSheet outerHTML title.

End Template.

(* ================================================================== *)
(** * Promises and exceptions *)
(* ================================================================== *)

Module Async.

Inductive JsError : Type :=
  | TypeError (message : string)
  | URIError (message : string)
  | Error (message : string).

Definition message_of (e : JsError) : string :=
  match e with TypeError m | URIError m | Error m => m end.

(** What a synchronous call does: it returns or it throws. *)
Inductive completion (A : Type) : Type :=
  | Return (a : A)
  | Throw (e : JsError).
Arguments Return {A} a.
Arguments Throw {A} e.

(** The state a promise ends in.  An [async] function returns a promise;
    [await p] continues with the value of a fulfilled [p], throws the reason
    of a rejected one and never continues on one that stays pending. *)
Inductive promise (A : Type) : Type :=
  | Fulfilled (a : A)
  | Rejected (e : JsError)
  | Pending.
Arguments Fulfilled {A} a.
Arguments Rejected {A} e.
Arguments Pending {A}.

Definition await {A B : Type} (p : promise A) (k : A -> promise B) : promise B :=
  match p with
  | Fulfilled a => k a
  | Rejected e => Rejected e
  | Pending => Pending
  end.

Definition of_completion {A : Type} (c : completion A) : promise A :=
  match c with Return a => Fulfilled a | Throw e => Rejected e end.

(** When a promise of a batch is rejected, counted from the call that made
    it.  An [async] function that throws before its first [await] returns
    a promise that is rejected already ([SameTask 0]); every [await] it
    goes through first costs a turn of the microtask queue; what waits for
    the file system or for an image comes in a later task, at a time the
    environment decides. *)
Inductive moment : Type :=
  | SameTask (ticks : nat)
  | LaterTask (t : nat).

(** [m1] comes strictly before [m2]. *)
Definition before (m1 m2 : moment) : bool :=
  match m1, m2 with
  | SameTask a, SameTask b => Nat.ltb a b
  | SameTask _, LaterTask _ => true
  | LaterTask _, SameTask _ => false
  | LaterTask a, LaterTask b => Nat.ltb a b
  end.

(** The reaction to a promise that settles at [m] runs one microtask
    later. *)
Definition later (m : moment) : moment :=
  match m with
  | SameTask n => SameTask (S n)
  | LaterTask t => LaterTask t
  end.

(** The state a promise ends in, and when it settles.  Only the moments of
    rejections bear on what [Promise.all] ends in. *)
Record timed (A : Type) : Type := Timed {
  outcome : promise A;
  settles : moment
}.
Arguments Timed {A} outcome settles.
Arguments outcome {A} t.
Arguments settles {A} t.

(** [await p] in an [async] function: it goes on with [k] one microtask
    after [p] settles, and what [k] gives is what the function's promise
    ends in.  A rejection of [p] is the function's, at that moment; the
    functions below await nothing that fails after [p]. *)
Definition awaitT {A B : Type} (p : timed A) (k : A -> promise B) : timed B :=
  {| outcome := await (outcome p) k; settles := later (settles p) |}.

(** The rejection that comes first: the earliest in time and, of those of
    one moment, the first in the array (reactions of one turn run in the
    order in which [Promise.all] subscribed). *)
Fixpoint first_rejection {A : Type} (ps : list (timed A)) : option (moment * JsError) :=
  match ps with
  | nil => None
  | p :: ps' =>
      match outcome p, first_rejection ps' with
      | Rejected e, Some (m', e') =>
          if before m' (settles p) then Some (m', e') else Some (settles p, e)
      | Rejected e, None => Some (settles p, e)
      | _, r => r
      end
  end.

Fixpoint values {A : Type} (ps : list (timed A)) : option (list A) :=
  match ps with
  | nil => Some nil
  | p :: ps' =>
      match outcome p, values ps' with
      | Fulfilled a, Some l => Some (a :: l)
      | _, _ => None
      end
  end.

(** The state [Promise.all(ps)] ends in: rejected with the reason of the
    rejection that comes first in time, fulfilled when all of [ps] are,
    pending otherwise. *)
Definition all {A : Type} (ps : list (timed A)) : promise (list A) :=
  match first_rejection ps with
  | Some (_, e) => Rejected e
  | None => match values ps with Some l => Fulfilled l | None => Pending end
  end.

(** Console output. *)
Inductive log : Type :=
  | Debug (text : string)
  | Warn (text : string)
  | ConsoleError (text : string).

End Async.

(* ================================================================== *)
(** * The DOM tree *)
(* ================================================================== *)

Module Dom.

Definition attributes : Type := list (string * string).

(** Element tag names are held as [el.tagName] gives them: upper case for
    HTML elements ([IMG], [LI], [P]), as written for SVG elements ([svg]). *)
#[local] Unset Elimination Schemes.
Inductive node : Type :=
  | TextNode (data : string)
  | Element (tagName : string) (attrs : attributes) (childNodes : list node).
#[local] Set Elimination Schemes.

Fixpoint getAttribute (name : string) (attrs : attributes) : option string :=
  match attrs with
  | nil => None
  | (n, v) :: attrs' => if String.eqb n name then Some v else getAttribute name attrs'
  end.

(** [el.setAttribute(name, value)]: an existing attribute keeps its place. *)
Fixpoint setAttribute (name value : string) (attrs : attributes) : attributes :=
  match attrs with
  | nil => (name, value) :: nil
  | (n, v) :: attrs' =>
      if String.eqb n name then (n, value) :: attrs'
      else (n, v) :: setAttribute name value attrs'
  end.

Fixpoint removeAttribute (name : string) (attrs : attributes) : attributes :=
  match attrs with
  | nil => nil
  | (n, v) :: attrs' =>
      if String.eqb n name then removeAttribute name attrs'
      else (n, v) :: removeAttribute name attrs'
  end.

(** The node at a path of child indices. *)
Fixpoint nodeAt (n : node) (path : list nat) : option node :=
  match path with
  | nil => Some n
  | i :: path' =>
      match n with
      | Element _ _ ks =>
          match nth_error ks i with
          | Some k => nodeAt k path'
          | None => None
          end
      | TextNode _ => None
      end
  end.

(** The tokens of a [class] attribute (split on ASCII white space). *)
Fixpoint tokens_from (cur : string) (s : string) : list string :=
  match s with
  | EmptyString => match cur with EmptyString => nil | _ => cur :: nil end
  | String c s' =>
      if Regex.is_space c then
        match cur with
        | EmptyString => tokens_from EmptyString s'
        | _ => cur :: tokens_from EmptyString s'
        end
      else tokens_from (cur ++ String c EmptyString) s'
  end.

Definition classList (attrs : attributes) : list string :=
  match getAttribute "class" attrs with
  | Some v => tokens_from EmptyString v
  | None => nil
  end.

Definition hasClass (c : string) (attrs : attributes) : bool :=
  existsb (String.eqb c) (classList attrs).

(** Remove every descendant element that [p] selects (the node itself is
    not a candidate, as with [node.querySelectorAll(..).forEach(n => n.remove())]). *)
Fixpoint removeDescendants (p : string -> attributes -> bool) (n : node) : node :=
  match n with
  | TextNode _ => n
  | Element t a ks =>
      Element t a
        ((fix go (ks : list node) : list node :=
            match ks with
            | nil => nil
            | k :: ks' =>
                match k with
                | TextNode _ => k :: go ks'
                | Element t' a' _ =>
                    if p t' a' then go ks' else removeDescendants p k :: go ks'
                end
            end) ks)
  end.

(** Rewrite the attributes of every descendant element that [p] selects. *)
Fixpoint updateDescendants (p : string -> attributes -> bool)
    (f : attributes -> attributes) (n : node) : node :=
  match n with
  | TextNode _ => n
  | Element t a ks =>
      Element t a
        (List.map
           (fun k => match updateDescendants p f k with
                     | Element t' a' ks' => Element t' (if p t' a' then f a' else a') ks'
                     | k' => k'
                     end) ks)
  end.

End Dom.

(* ================================================================== *)
(** * Settings ([CopyDocument2MpSettings], the fields [main.ts] reads) *)
(* ================================================================== *)

Module Settings.

Record t : Type := Make {
  removeFrontMatter : bool;
  convertSvgToBitmap : bool;
  removeDataviewMetadataLines : bool;
  disableImageEmbedding : bool;
  styleSheet : string;
  bareHtmlOnly : bool;
  fileNameAsHeader : bool;
  styleSheetStyle : string
}.

(** [DEFAULT_SETTINGS]. *)
Definition DEFAULT_SETTINGS : t :=
  {| removeFrontMatter := true;
     convertSvgToBitmap := true;
     removeDataviewMetadataLines := false;
     disableImageEmbedding := false;
     styleSheet := "";
     bareHtmlOnly := false;
     fileNameAsHeader := false;
     styleSheetStyle := "wechat-default" |}.

End Settings.

(* ================================================================== *)
(** * The image resolution engine *)
(* ================================================================== *)

Module Images.
Import JS Async Dom Mime.

(** What the [load] handler of [imageToDataUri] meets.  [ctx!.drawImage]
    throws (there is no context, or the image cannot be drawn) and the
    handler ends there, before [resolve]; or the image is drawn, and
    [canvas.toDataURL('image/png')] returns a URI or throws (a tainted
    canvas). *)
Inductive Canvas : Type :=
  | NotDrawn
  | Drawn (toDataURL : option string).

(** The events the browser fires on an image after [image.src = url]. *)
Inductive ImageEvent : Type :=
  | Load (canvas : Canvas)
  | LoadError.

(** What the browser and Obsidian provide. *)
Record World : Type := MakeWorld {
  (** The events on the image made for a URL, in order; none when the load
      never comes to an end. *)
  loadImage : string -> list ImageEvent;
  (** [decodeURI]; [None] when it throws [URIError]. *)
  decodeURI : string -> option string;
  (** The value of [img.src] for an element whose [src] attribute holds
      the text: the URL, resolved against the document and serialized. *)
  resolveURL : string -> string;
  (** [adapter.getBasePath()], with forward slashes. *)
  vaultPath : string;
  (** [vault.getAbstractFileByPath(path)] is a file, and then what the
      promise of [vault.readBinary] ends in, and when. *)
  vaultFile : string -> option (timed (list Byte.byte));
  arrayBufferToBase64 : list Byte.byte -> string;
  (** The vector rasterization pass that follows [embedImages]. *)
  renderSvg : Settings.t -> node -> promise node
}.

Definition vaultLocalUriPrefix (W : World) : string := "app://local/" ++ vaultPath W.

(** [resolve(v)] of a promise: only the first call settles it. *)
Definition resolve {A : Type} (v : A) (p : promise A) : promise A :=
  match p with Pending => Fulfilled v | _ => p end.

(** The two handlers [imageToDataUri] installs, on the promise it returns
    and the console. *)
Definition onload (url : string) (canvas : Canvas)
    (st : promise string * list log) : promise string * list log :=
  match canvas with
  | NotDrawn => st
  | Drawn (Some uri) => (resolve uri (fst st), snd st)
  | Drawn None => (resolve url (fst st), (snd st ++ ConsoleError ("failed " ++ url) :: nil)%list)
  end.

Definition onerror (url : string) (st : promise string * list log)
  : promise string * list log :=
  (resolve url (fst st), (snd st ++ ConsoleError "could not load data uri" :: nil)%list).

Definition dispatch (url : string) (st : promise string * list log) (ev : ImageEvent)
  : promise string * list log :=
  match ev with
  | Load canvas => onload url canvas st
  | LoadError => onerror url st
  end.

(** [imageToDataUri(url)] under the events the browser delivers. *)
Definition imageToDataUri_events (url : string) (evs : list ImageEvent)
  : promise string * list log :=
  fold_left (dispatch url) evs (Pending, nil).

Definition imageToDataUri (W : World) (url : string) : promise string * list log :=
  imageToDataUri_events url (loadImage W url).

(** The handler of the event calls [resolve]. *)
Definition settling (ev : ImageEvent) : bool :=
  match ev with
  | Load NotDrawn => false
  | _ => true
  end.



(** [readFromVault(path, mimeType)].  It throws before its first [await]
    when the path is not a file of the vault. *)
Definition readFromVault (W : World) (path mimeType : string) : timed string :=
  match vaultFile W path with
  | None => {| outcome := Rejected (Error ("File not found: " ++ path));
               settles := SameTask 0 |}
  | Some read =>
      awaitT read (fun data =>
        Fulfilled ("data:" ++ mimeType ++ ";base64," ++ arrayBufferToBase64 W data))
  end.

(** "/[?#].*/" *)
Definition queryOrFragment : Regex.re :=
  Regex.Seq (Regex.Chr (fun c => Ascii.eqb c "?" || Ascii.eqb c "#"))
            (Regex.Star true (Regex.Chr Regex.is_dot)).

(** [replaceImageSource(image)], as the value [image.src] is assigned;
    [src] is the value of [image.src] on entry.  [decodeURI] throws before
    the first [await]; the promise of [imageToDataUri] is never rejected. *)
Definition replaceImageSource (W : World) (o : Settings.t) (src : string) : timed string :=
  match decodeURI W src with
  | None => {| outcome := Rejected (URIError "URI malformed"); settles := SameTask 0 |}
  | Some imageSourcePath =>
      if startsWith imageSourcePath (vaultLocalUriPrefix W) then
        let path :=
          Regex.replace_first queryOrFragment nil
            (substring_from imageSourcePath (len (vaultLocalUriPrefix W) + 1)) in
        match decodeURI W path with
        | None => {| outcome := Rejected (URIError "URI malformed"); settles := SameTask 0 |}
        | Some path =>
            let mimeType := guessMimeType path in
            awaitT (readFromVault W path mimeType) (fun data =>
              if isSvg mimeType && Settings.convertSvgToBitmap o
              then fst (imageToDataUri W data)
              else Fulfilled data)
        end
      else {| outcome := fst (imageToDataUri W src); settles := LaterTask 0 |}
  end.

(** [img.src]: the empty string without a [src] attribute, the resolved
    URL otherwise. *)
Definition src_of (W : World) (attrs : attributes) : string :=
  match getAttribute "src" attrs with
  | Some v => resolveURL W v
  | None => EmptyString
  end.

(** The callback of [embedImages] on one [img] whose [img.src] is [src]:
    the promise it pushes, if any. *)
Definition embedImage (W : World) (o : Settings.t) (src : string)
  : option (timed string) :=
  match src with
  | EmptyString => None
  | _ =>
      if startsWith src "data:image/svg+xml" && Settings.convertSvgToBitmap o
      then Some (replaceImageSource W o src)
      else if negb (startsWith src "data:")
      then Some (replaceImageSource W o src)
      else None
  end.

(** The promises pushed for an element and the elements below it, in
    document order. *)
Fixpoint pushedIn (W : World) (o : Settings.t) (n : node) : list (timed string) :=
  match n with
  | TextNode _ => nil
  | Element t a ks =>
      ((if String.eqb t "IMG" then
          match embedImage W o (src_of W a) with
          | Some p => p :: nil
          | None => nil
          end
        else nil) ++ List.flat_map (pushedIn W o) ks)%list
  end.

(** The attributes of an element once the promise pushed for it, if any,
    is fulfilled: [image.src = value]. *)
Definition sourcedSelf (W : World) (o : Settings.t) (t : string) (a : attributes)
  : attributes :=
  if String.eqb t "IMG" then
    match embedImage W o (src_of W a) with
    | Some p =>
        match outcome p with
        | Fulfilled v => setAttribute "src" v a
        | _ => a
        end
    | None => a
    end
  else a.

(** An element and the elements below it once the promises pushed for them
    are fulfilled. *)
Fixpoint sourcedIn (W : World) (o : Settings.t) (n : node) : node :=
  match n with
  | TextNode _ => n
  | Element t a ks => Element t (sourcedSelf W o t a) (List.map (sourcedIn W o) ks)
  end.

(** [embedImages(node)]: every [img] below [node]; the batch is awaited
    through [allWithProgress], which returns [Promise.all] of it. *)
Definition embedImages (W : World) (o : Settings.t) (n : node) : promise node :=
  match n with
  | TextNode _ => Fulfilled n
  | Element t a ks =>
      await (all (List.flat_map (pushedIn W o) ks))
        (fun _ => Fulfilled (Element t a (List.map (sourcedIn W o) ks)))
  end.

Definition isFrontMatter (t : string) (a : attributes) : bool :=
  hasClass "frontmatter" a || hasClass "frontmatter-container" a.

Definition isCheckbox (t : string) (a : attributes) : bool :=
  String.eqb t "INPUT" &&
  match getAttribute "type" a with
  | Some v => String.eqb (toLowerCase v) "checkbox"
  | None => false
  end.

(** The synchronous passes of [transformHTML] on the clone of the
    rendered tree. *)
Definition cleanup (o : Settings.t) (element : node) : node :=
  let node :=
    match element with
    | Element t a ks => Element t (removeAttribute "style" a) ks
    | TextNode _ => element
    end in
  let node := if Settings.removeFrontMatter o then removeDescendants isFrontMatter node else node in
  let node := updateDescendants isCheckbox (setAttribute "disabled" "disabled") node in
  let node := removeDescendants (fun _ a => hasClass "collapse-indicator" a) node in
  let node := removeDescendants (fun t _ => String.eqb t "BUTTON") node in
  removeDescendants (fun _ a => hasClass "snw-reference" a) node.

(** [transformHTML(element)]. *)
Definition transformHTML (W : World) (o : Settings.t) (element : node) : promise node :=
  let node := cleanup o element in
  if Settings.disableImageEmbedding o then Fulfilled node
  else await (embedImages W o node) (renderSvg W o).

End Images.

(* ================================================================== *)
(** * The inline style cascade: [applyInlineStyles] *)
(* ================================================================== *)

Module Styles.
Import JS Async Dom.

(** The [styles] object of one entry of [STYLES]: selector (or
    [container]) to declarations, in the order of [Object.keys]. *)
Definition StyleRuleSet : Type := list (string * string).

Record StyleObj : Type := MakeStyle { styles : StyleRuleSet }.

(** What [applyInlineStyles] takes from the browser and from
    [styles_temp.js]. *)
Record Browser : Type := MakeBrowser {
  (** [STYLES[styleKey]]; [None] is [undefined]. *)
  STYLES : string -> option StyleObj;
  (** [new DOMParser().parseFromString(html, 'text/html')]: the document
      element. *)
  parseFromString : string -> node;
  (** [el.outerHTML]. *)
  outerHTML : node -> string;
  (** [doc.querySelectorAll(selector)]: whether it holds the element at a
      path (child indices from the document element) of a document. *)
  selects : string -> node -> list nat -> bool
}.

Definition keys (style : StyleRuleSet) : list string := List.map fst style.

(** [style[key]]. *)
Fixpoint get (style : StyleRuleSet) (key : string) : option string :=
  match style with
  | nil => None
  | (k, v) :: style' => if String.eqb k key then Some v else get style' key
  end.

(** String concatenation with a value that may be [undefined]. *)
Definition text_of (v : option string) : string :=
  match v with Some s => s | None => "undefined" end.

Definition skipped (selector : string) : bool :=
  String.eqb selector "pre" || String.eqb selector "code" || String.eqb selector "pre code".

(** [el.closest('.image-grid')] is not null; [chain] holds the attributes of
    the element and of its ancestors. *)
Definition inImageGrid (chain : list attributes) : bool :=
  existsb (hasClass "image-grid") chain.

(** What the callback of [elements.forEach] does to one selected element. *)
Inductive visit : Type :=
  | Untouched
  | Styled (attrs' : attributes)
  | WrappedLi (attrs' : attributes).

Definition styleElement (style : StyleRuleSet) (selector : string)
    (ancestors : list attributes) (tagName : string) (attrs : attributes) : visit :=
  if String.eqb tagName "IMG" && inImageGrid (attrs :: ancestors) then Untouched
  else
    let currentStyle := or_undef (getAttribute "style" attrs) EmptyString in
    if String.eqb tagName "LI" then
      WrappedLi (setAttribute "style" (currentStyle ++ "; " ++ text_of (get style "li")) attrs)
    else
      Styled (setAttribute "style" (currentStyle ++ "; " ++ text_of (get style selector)) attrs).

(** One selector's [querySelectorAll(..).forEach(..)] on the subtree at
    [path].  The node list is computed on the document [doc0] as it is when
    the selector's turn comes.  A selected [li] gets a single [p] child
    holding copies of its children as they are at that moment; the
    originals, which are what the node list still holds, leave the
    document, so that nothing below that [li] changes in this turn. *)
Fixpoint stylePass (B : Browser) (style : StyleRuleSet) (selector : string)
    (doc0 : node) (path : list nat) (ancestors : list attributes) (n : node) : node :=
  match n with
  | TextNode _ => n
  | Element t a ks =>
      let ks' :=
        (fix go (i : nat) (ks : list node) : list node :=
           match ks with
           | nil => nil
           | k :: ks' =>
               stylePass B style selector doc0 (path ++ i :: nil)%list (a :: ancestors) k
               :: go (S i) ks'
           end) O ks in
      if selects B selector doc0 path then
        match styleElement style selector ancestors t a with
        | Untouched => Element t a ks'
        | Styled a' => Element t a' ks'
        | WrappedLi a' => Element t a' (Element "P" nil ks :: nil)
        end
      else Element t a ks'
  end.

(** The children of an element in [stylePass]. *)
Definition styleChildren (B : Browser) (style : StyleRuleSet) (selector : string)
    (doc0 : node) (path : list nat) (ancestors : list attributes)
  : nat -> list node -> list node :=
  fix go (i : nat) (ks : list node) : list node :=
    match ks with
    | nil => nil
    | k :: ks' =>
        stylePass B style selector doc0 (path ++ i :: nil)%list ancestors k
        :: go (S i) ks'
    end.

(** [doc.body.childNodes]. *)
Definition bodyChildNodes (doc : node) : list node :=
  match doc with
  | Element _ _ ks =>
      match List.find (fun k => match k with
                                | Element t _ _ => String.eqb t "BODY"
                                | TextNode _ => false
                                end) ks with
      | Some (Element _ _ body) => body
      | _ => nil
      end
  | TextNode _ => nil
  end.

(** One turn of the loop over [Object.keys(style)]. *)
Definition turn (B : Browser) (style : StyleRuleSet) (doc : node) (selector : string) : node :=
  if skipped selector then doc
  else stylePass B style selector doc nil nil doc.

Definition cascade (B : Browser) (style : StyleRuleSet) (doc : node) : node :=
  fold_left (turn B style) (keys style) doc.


(** No element above the node at [path] is a list item the selector
    selects: such a list item has its children replaced by copies in a
    new [p], and the elements below it that the node list holds are no
    longer part of the document. *)
Fixpoint outsideSelectedLi (B : Browser) (selector : string) (doc0 : node)
    (prefix : list nat) (n : node) (path : list nat) : Prop :=
  match path with
  | nil => True
  | i :: path' =>
      match n with
      | Element t _ ks =>
          selects B selector doc0 prefix && String.eqb t "LI" = false /\
          match nth_error ks i with
          | Some k => outsideSelectedLi B selector doc0 (prefix ++ i :: nil)%list k path'
          | None => True
          end
      | TextNode _ => True
      end
  end.


(** [applyInlineStyles(html, applyStyle)]: the console output and the
    result. *)
Definition applyInlineStyles (B : Browser) (html applyStyle : string)
  : list log * completion string :=
  match STYLES B applyStyle with
  | None =>
      (Warn ("样式 " ++ applyStyle ++ " 不存在，使用默认样式") :: nil,
       Throw (TypeError "Cannot read properties of undefined (reading 'styles')"))
  | Some styleObj =>
      let style := styles styleObj in
      let doc := cascade B style (parseFromString B html) in
      let container :=
        Element "DIV" (("style", text_of (get style "container")) :: nil)
          (bodyChildNodes doc) in
      (nil, Return (outerHTML B container))
  end.

End Styles.

(* ================================================================== *)
(** * The batch join: [allWithProgress] *)
(* ================================================================== *)

(** [allWithProgress(promises, callback)] registers its handlers and
    returns [Promise.all(promises)]; afterwards the promises of the batch
    settle one by one, in an order the program does not control.  The state
    below is what the handlers and [Promise.all] have done after a number of
    settlements. *)
Module Batch.
Import Async.

(** One promise of the batch settles. *)
Inductive settlement : Type :=
  | Fulfils (i : nat)
  | Rejects (i : nat) (reason : JsError).

Definition index_of (ev : settlement) : nat :=
  match ev with Fulfils i | Rejects i _ => i end.

Record state : Type := MakeState {
  (** [let count]. *)
  count : nat;
  (** The arguments [callback] was called with, latest first. *)
  reported : list Q;
  (** How many promises [Promise.all] has seen fulfilled. *)
  seen : nat;
  (** The state of the promise [Promise.all] returned, which
      [embedImages] awaits. *)
  joined : promise unit
}.

(** [(count * 100) / promises.length]. *)
Definition percent (count total : nat) : Q :=
  (inject_Z (Z.of_nat (count * 100)) / inject_Z (Z.of_nat total))%Q.

(** The state when [allWithProgress] returns: [callback(0)] has run, and
    [Promise.all] of an empty array is already fulfilled. *)
Definition allWithProgress (total : nat) : state :=
  {| count := 0;
     reported := inject_Z 0 :: nil;
     seen := 0;
     joined := match total with O => Fulfilled tt | S _ => Pending end |}.

(** One settlement: the [then] handler or the [catch] handler counts it and
    reports progress; [Promise.all] rejects on the first rejection and is
    fulfilled by the last fulfilment. *)
Definition settle (total : nat) (st : state) (ev : settlement) : state :=
  match ev with
  | Fulfils _ =>
      {| count := S (count st);
         reported := percent (S (count st)) total :: reported st;
         seen := S (seen st);
         joined := match joined st with
                   | Pending => if Nat.eqb (S (seen st)) total then Fulfilled tt else Pending
                   | j => j
                   end |}
  | Rejects _ reason =>
      {| count := S (count st);
         reported := percent (S (count st)) total :: reported st;
         seen := seen st;
         joined := match joined st with
                   | Pending => Rejected reason
                   | j => j
                   end |}
  end.

Definition run (total : nat) (evs : list settlement) : state :=
  fold_left (settle total) evs (allWithProgress total).

(** Every promise of the batch settles at most once. *)
Definition schedule (total : nat) (evs : list settlement) : Prop :=
  List.NoDup (List.map index_of evs) /\
  List.Forall (fun ev => (index_of ev < total)%nat) evs.

(** The promises of the batch that have not settled yet. *)
Definition unsettled (total : nat) (evs : list settlement) : nat :=
  (total - List.length evs)%nat.

(** The promises of [ps] that settle, each with its index in the array
    and the moment at which it settles. *)
Fixpoint settled {A : Type} (i : nat) (ps : list (timed A)) : list (moment * settlement) :=
  match ps with
  | nil => nil
  | p :: ps' =>
      match outcome p with
      | Fulfilled _ => (settles p, Fulfils i) :: settled (S i) ps'
      | Rejected e => (settles p, Rejects i e) :: settled (S i) ps'
      | Pending => settled (S i) ps'
      end
  end.

(** A settlement put in its place in a list that is in the order of time:
    before the first one that does not come strictly earlier. *)
Fixpoint insert (x : moment * settlement) (l : list (moment * settlement))
  : list (moment * settlement) :=
  match l with
  | nil => x :: nil
  | y :: l' => if before (fst y) (fst x) then y :: insert x l' else x :: y :: l'
  end.

(** The settlements of the promises [ps] in the order of time; those of
    one moment in the order of the array. *)
Definition settlements_of {A : Type} (ps : list (timed A)) : list settlement :=
  List.map snd (fold_right insert nil (settled 0 ps)).

Fixpoint first_reason (evs : list settlement) : option JsError :=
  match evs with
  | nil => None
  | Rejects _ e :: _ => Some e
  | Fulfils _ :: evs' => first_reason evs'
  end.

(** The first rejection of a list of settlements with their moments. *)
Fixpoint earliest (l : list (moment * settlement)) : option (moment * JsError) :=
  match l with
  | nil => None
  | (m, Rejects _ e) :: l' =>
      match earliest l' with
      | Some (m', e') => if before m' m then Some (m', e') else Some (m, e)
      | None => Some (m, e)
      end
  | (_, Fulfils _) :: l' => earliest l'
  end.

(** The list is in the order of time. *)
Definition inOrder (l : list (moment * settlement)) : Prop :=
  Sorted.StronglySorted (fun x y => before (fst y) (fst x) = false) l.

End Batch.

(* ================================================================== *)
(** * The Markdown preprocessor: [preprocessMarkdown] *)
(* ================================================================== *)

Module Markdown.
Import Regex.

(** The characters the class "[^:#`<>]" excludes. *)
Definition isMarkup (c : ascii) : bool :=
  Ascii.eqb c ":" || Ascii.eqb c "#" || Ascii.eqb c "`" || Ascii.eqb c "<" || Ascii.eqb c ">".

(** "[^:#`<>]" *)
Definition plain (c : ascii) : bool := negb (isMarkup c).

(** "[^ \t:#`<>]" *)
Definition lineHead (c : ascii) : bool :=
  negb (Ascii.eqb c " " || Ascii.eqb c "009" || isMarkup c).

(** "/^[^ \t:#`<>][^:#`<>]+::.*$/gm" *)
Definition dataviewLine : re :=
  Seq Bol
    (Seq (Chr lineHead)
       (Seq (Plus (Chr plain))
          (Seq (Lit ":") (Seq (Lit ":") (Seq (Star true (Chr is_dot)) Eol))))).

(** [preprocessMarkdown(markdown)]. *)
Definition preprocessMarkdown (o : Settings.t) (markdown : string) : string :=
  let processed := markdown in
  if Settings.removeDataviewMetadataLines o
  then replace_all dataviewLine nil processed
  else processed.

End Markdown.

(* ================================================================== *)
(** * The orchestrator: the global variables, the entry points, [doCopy] *)
(* ================================================================== *)

Module Session.
Import JS Async Dom.

(** The three module-level variables. *)
Record Globals : Type := MakeGlobals {
  copyIsRunning : bool;
  ppIsProcessing : bool;
  ppLastBlockDate : Z
}.

(** Their values when the module is loaded at time [now]. *)
Definition initial (now : Z) : Globals :=
  {| copyIsRunning := false; ppIsProcessing := false; ppLastBlockDate := now |}.

(** The two Markdown post processors registered by [onload]. *)
Definition beforeAllPostProcessor (g : Globals) : Globals :=
  {| copyIsRunning := copyIsRunning g;
     ppIsProcessing := true;
     ppLastBlockDate := ppLastBlockDate g |}.

Definition afterAllPostProcessor (now : Z) (g : Globals) : Globals :=
  {| copyIsRunning := copyIsRunning g;
     ppIsProcessing := false;
     ppLastBlockDate := now |}.

(** A block goes through the post processors. *)
Inductive BlockEvent : Type :=
  | BlockStart
  | BlockEnd (now : Z).

Definition notify (g : Globals) (ev : BlockEvent) : Globals :=
  match ev with
  | BlockStart => beforeAllPostProcessor g
  | BlockEnd now => afterAllPostProcessor now g
  end.

(** What happens around one evaluation of the loop condition of
    [untilRendered]: the value of [Date.now()], and the post processor
    calls that run during the [delay(20)] that follows. *)
Record Tick : Type := MakeTick {
  now : Z;
  during : list BlockEvent
}.

Definition optionRenderSettlingDelay : Z := 100.

(** [untilRendered()]: [Some (g, n)] when the loop is left after [n] delays
    with the variables as [g]; [None] when it is still polling after [fuel]
    evaluations of the condition. *)
Fixpoint untilRendered (fuel : nat) (world : nat -> Tick) (n : nat) (g : Globals)
  : option (Globals * nat) :=
  match fuel with
  | O => None
  | S fuel' =>
      if ppIsProcessing g || (now (world n) - ppLastBlockDate g <? optionRenderSettlingDelay)
      then
        if ppLastBlockDate g =? 0 then Some (g, n)
        else untilRendered fuel' world (S n) (fold_left notify (during (world n)) g)
      else Some (g, n)
  end.

(** The arguments of one call of [doCopy]. *)
Record CopyArgs : Type := MakeArgs {
  markdown : string;
  path : string;
  name : string;
  isFullDocument : bool
}.

(** [doCopy] from its entry to its first [await]. *)
Definition doCopy_enter (now : Z) (g : Globals) : Globals :=
  {| copyIsRunning := true; ppIsProcessing := true; ppLastBlockDate := now |}.

(** What [doCopy] leaves behind: the notice, what it wrote to the
    clipboard, and what [doCopy] and [applyInlineStyles] wrote to the
    console, in order (what [imageToDataUri] logs while images load is
    given by [Images.imageToDataUri] and not repeated here). *)
Record Report : Type := MakeReport {
  notice : string;
  clipboard : option string;
  console : list log
}.

(** The [catch] and [finally] blocks of [doCopy], given the state in which
    the [try] block ended ([Fulfilled html] when it wrote [html] to the
    clipboard, [Rejected e] when it threw), what was logged until then and
    the variables at that moment.  A [try] block that never ends leaves
    [doCopy] suspended. *)
Definition doCopy_leave (logged : list log) (tried : promise string) (g : Globals)
  : option (Globals * Report) :=
  let released :=
    {| copyIsRunning := false;
       ppIsProcessing := ppIsProcessing g;
       ppLastBlockDate := ppLastBlockDate g |} in
  match tried with
  | Fulfilled html =>
      Some (released,
            {| notice := "复制成功！"; clipboard := Some html; console := logged |})
  | Rejected e =>
      Some (released,
            {| notice := "copy failed: " ++ message_of e;
               clipboard := None;
               console := (logged ++ ConsoleError "复制失败" :: nil)%list |})
  | Pending => None
  end.

(** What Obsidian does on one call of [renderMarkdown]. *)
Record Rendering : Type := MakeRendering {
  (** How [MarkdownRenderer.render] ends, and the calls of the post
      processors before it returns. *)
  rendered : promise unit;
  blocks : list BlockEvent;
  (** The clock and the calls of the post processors around the polls of
      [untilRendered]. *)
  polls : nat -> Tick;
  (** The calls of the post processors between the return of
      [untilRendered] and the end of [doCopy] (by this rendering or by any
      other in the application). *)
  afterwards : list BlockEvent;
  (** [loadComponents(view)]. *)
  components : promise unit;
  (** The wrapper when [renderMarkdown] clones it. *)
  wrapper : node
}.

(** What [doCopy] takes from Obsidian and the browser, besides the
    parameters of [Images] and [Styles]. *)
Record Host : Type := MakeHost {
  (** [MarkdownRenderer.render(app, markdown, wrapper, path, view)] and
      what follows it. *)
  markdownRenderer : string -> string -> Rendering;
  simplifyCodeBlocks : string -> string;
  (** [navigator.clipboard.write]. *)
  clipboardWrite : string -> promise unit
}.

(** "/\.md$/i" *)
Definition mdSuffix : Regex.re :=
  Regex.Seq (Regex.Lit ".")
    (Regex.Seq (Regex.Chr (fun c => Ascii.eqb (lower_ascii c) "m"))
       (Regex.Seq (Regex.Chr (fun c => Ascii.eqb (lower_ascii c) "d")) Regex.Eoi)).

(** [renderMarkdown(markdown, path)], entered with the variables [g]: the
    variables when it ends, and the clone of the wrapper.  The promise is
    pending when [MarkdownRenderer.render] never returns or [untilRendered]
    is still polling after [fuel] evaluations of its condition. *)
Definition renderMarkdown (H : Host) (o : Settings.t) (fuel : nat)
    (markdown path : string) (g : Globals) : Globals * promise node :=
  let r := markdownRenderer H (Markdown.preprocessMarkdown o markdown) path in
  let g := fold_left notify (blocks r) g in
  match rendered r with
  | Fulfilled _ =>
      match untilRendered fuel (polls r) 0 g with
      | Some (g, _) =>
          (fold_left notify (afterwards r) g,
           await (components r) (fun _ => Fulfilled (wrapper r)))
      | None => (g, Pending)
      end
  | Rejected e => (g, Rejected e)
  | Pending => (g, Pending)
  end.

(** [renderDocument(markdown, path)]; the modal it opens and closes is not
    modelled. *)
Definition renderDocument (W : Images.World) (H : Host) (o : Settings.t) (fuel : nat)
    (markdown path : string) (g : Globals) : Globals * promise node :=
  let r := renderMarkdown H o fuel markdown path g in
  (fst r, await (snd r) (Images.transformHTML W o)).

(** The [try] block of [doCopy] after the three assignments: the variables
    when it ends, what [applyInlineStyles] logged, and how it ends. *)
Definition doCopy_try (W : Images.World) (B : Styles.Browser) (H : Host)
    (o : Settings.t) (fuel : nat) (a : CopyArgs) (g : Globals)
  : Globals * (list log * promise string) :=
  let title := Regex.replace_first mdSuffix nil (name a) in
  let r := renderDocument W H o fuel (markdown a) (path a) g in
  (fst r,
   match snd r with
   | Fulfilled htmlBody =>
       let htmlBody :=
         if Settings.fileNameAsHeader o && isFullDocument a then
           match htmlBody with
           | Element t at_ ks =>
               Element t at_ (Element "H1" nil (TextNode title :: nil) :: ks)
           | TextNode _ => htmlBody
           end
         else htmlBody in
       let htmlDocument :=
         Template.htmlDocument (Settings.bareHtmlOnly o) (Settings.styleSheet o)
           (Styles.outerHTML B htmlBody) title in
       let htmlDocument := simplifyCodeBlocks H htmlDocument in
       let htmlDocument := ListNormalizer.preprocessMarkdownList htmlDocument in
       let styled := Styles.applyInlineStyles B htmlDocument (Settings.styleSheetStyle o) in
       (fst styled,
        await (of_completion (snd styled)) (fun htmlDocument =>
          await (clipboardWrite H htmlDocument) (fun _ => Fulfilled htmlDocument)))
   | Rejected e => (nil, Rejected e)
   | Pending => (nil, Pending)
   end).

(** [doCopy], entered at time [now] with the variables [g] and run to its
    end; [None] when it has not ended. *)
Definition doCopy (W : Images.World) (B : Styles.Browser) (H : Host)
    (o : Settings.t) (fuel : nat) (now : Z) (a : CopyArgs) (g : Globals)
  : option (Globals * Report) :=
  let r := doCopy_try W B H o fuel a (doCopy_enter now g) in
  doCopy_leave
    (Debug ("Copying " ++ Template.dquote ++ path a ++ Template.dquote ++ " to clipboard...")
     :: fst (snd r))
    (snd (snd r)) (fst r).

(** The active Markdown view, as far as [copyFromView] looks at it. *)
Record Editor : Type := MakeEditor {
  somethingSelected : bool;
  getSelection : string
}.

Record File : Type := MakeFile {
  file_path : string;
  file_name : string;
  extension : string;
  cachedRead : string
}.

Record View : Type := MakeView {
  editor : option Editor;
  file : option File;
  data : string
}.

Inductive AbstractFile : Type :=
  | TFile (f : File)
  | TFolder (folder_path : string).

(** [copyFromView(activeView, onlySelected)]: the call of [doCopy] it
    makes, if any. *)
Definition copyFromView (activeView : View) (onlySelected : bool) : option CopyArgs :=
  match editor activeView with
  | None => None
  | Some ed =>
      match file activeView with
      | None => None
      | Some f =>
          Some {| markdown := if onlySelected then getSelection ed else data activeView;
                  path := file_path f;
                  name := file_name f;
                  isFullDocument := negb onlySelected |}
      end
  end.

(** The [checkCallback] of the command [smart-copy-to-mp]: what it returns,
    and the call of [doCopy] it sets off.  Reading [somethingSelected] off
    a view without an editor throws. *)
Definition checkCallback (g : Globals) (activeView : option View) (checking : bool)
  : completion (bool * option CopyArgs) :=
  if copyIsRunning g then Return (false, None)
  else
    match activeView with
    | None => Return (false, None)
    | Some v =>
        if checking then Return (true, None)
        else
          match editor v with
          | None =>
              Throw (TypeError "Cannot read properties of null (reading 'somethingSelected')")
          | Some ed => Return (true, copyFromView v (somethingSelected ed))
          end
    end.

(** [copyFromFile(file)], the file-menu item: the call of [doCopy] it
    makes, if any. *)
Definition copyFromFile (file : AbstractFile) : option CopyArgs :=
  match file with
  | TFolder _ => None
  | TFile f =>
      if negb (String.eqb (toLowerCase (extension f)) "md") then None
      else Some {| markdown := cachedRead f;
                   path := file_path f;
                   name := file_name f;
                   isFullDocument := true |}
  end.

(** The plugin as a whole: the variables, and the calls of [doCopy] that
    have entered and not left yet. *)
Record System : Type := MakeSystem {
  globals : Globals;
  inflight : list CopyArgs
}.

Inductive Request : Type :=
  | Command (activeView : option View) (checking : bool)
  | FileMenu (file : AbstractFile).

Definition enter (now : Z) (a : option CopyArgs) (sys : System) : System :=
  match a with
  | None => sys
  | Some a =>
      {| globals := doCopy_enter now (globals sys);
         inflight := (inflight sys ++ a :: nil)%list |}
  end.

(** A request arrives at time [now]: what the entry point returns (the
    file-menu handler returns nothing, rendered as [true]), and the system
    afterwards. *)
Definition request (now : Z) (r : Request) (sys : System) : completion bool * System :=
  match r with
  | Command v checking =>
      match checkCallback (globals sys) v checking with
      | Return (ok, a) => (Return ok, enter now a sys)
      | Throw e => (Throw e, sys)
      end
  | FileMenu f => (Return true, enter now (copyFromFile f) sys)
  end.

Fixpoint remove_nth {A : Type} (i : nat) (l : list A) : list A :=
  match i, l with
  | _, nil => nil
  | O, _ :: l' => l'
  | S i', x :: l' => x :: remove_nth i' l'
  end.

(** The [i]-th call in flight leaves [doCopy] through [finally]. *)
Definition leave (i : nat) (sys : System) : System :=
  {| globals :=
       {| copyIsRunning := false;
          ppIsProcessing := ppIsProcessing (globals sys);
          ppLastBlockDate := ppLastBlockDate (globals sys) |};
     inflight := remove_nth i (inflight sys) |}.

End Session.

(* ================================================================== *)
(** * A small browser, vault and catalogue to run the model on *)
(* ================================================================== *)

Module Demo.
Import JS Async Dom.

Definition png : string := "data:image/png;base64,iVBORw0KGgo=".

(** A browser that decodes one external image, taints the canvas on a
    second one, never answers for a third and fails on every other URL; a
    vault with two files that can be read and one that cannot.  The source
    [a b.png] resolves to an encoded URL. *)
Definition world : Images.World :=
  {| Images.loadImage := fun url =>
       if String.eqb url "https://example.org/ok.png"
       then Images.Load (Images.Drawn (Some png)) :: nil
       else if String.eqb url "https://example.org/tainted.png"
       then Images.Load (Images.Drawn None) :: nil
       else if String.eqb url "https://example.org/stalled.png" then nil
       else Images.LoadError :: nil;
     Images.decodeURI := fun s =>
       if String.eqb s "https://example.org/a%20b.png"
       then Some "https://example.org/a b.png"
       else if has_char "%" s then None else Some s;
     Images.resolveURL := fun s =>
       if String.eqb s "a b.png" then "https://example.org/a%20b.png" else s;
     Images.vaultPath := "home/me/vault";
     Images.vaultFile := fun p =>
       if String.eqb p "pic.svg" then Some (Timed (Fulfilled nil) (LaterTask 1))
       else if String.eqb p "photo.png" then Some (Timed (Fulfilled nil) (LaterTask 1))
       else if String.eqb p "locked.png"
       then Some (Timed (Rejected (Error "EACCES: permission denied")) (LaterTask 2))
       else None;
     Images.arrayBufferToBase64 := fun _ => "PHN2Zy8+";
     Images.renderSvg := fun _ n => Fulfilled n |}.

(** A vault with a file whose extension goes on after [svg+xml], and a
    browser that decodes every data URI. *)
Definition sniffing : Images.World :=
  {| Images.loadImage := fun url =>
       if startsWith url "data:" then Images.Load (Images.Drawn (Some png)) :: nil
       else Images.LoadError :: nil;
     Images.decodeURI := fun s => if has_char "%" s then None else Some s;
     Images.resolveURL := fun s => s;
     Images.vaultPath := "home/me/vault";
     Images.vaultFile := fun p =>
       if String.eqb p "a.svg+xmlx" then Some (Timed (Fulfilled nil) (LaterTask 1)) else None;
     Images.arrayBufferToBase64 := fun _ => "iVBORw0KGgo=";
     Images.renderSvg := fun _ n => Fulfilled n |}.

(** A serializer without escaping. *)
Fixpoint serialize (n : node) : string :=
  match n with
  | TextNode d => d
  | Element t a ks =>
      "<" ++ toLowerCase t ++
      fold_right (fun kv acc => " " ++ fst kv ++ "='" ++ snd kv ++ "'" ++ acc) EmptyString a ++
      ">" ++ fold_right (fun k acc => serialize k ++ acc) EmptyString ks ++
      "</" ++ toLowerCase t ++ ">"
  end.

(** The document every input parses to in this browser. *)
Definition document : node :=
  Element "HTML" nil
    (Element "HEAD" nil nil ::
     Element "BODY" nil
       (Element "P" (("style", "color:red") :: nil) (TextNode "one" :: nil) ::
        Element "PRE" (("style", "color:red") :: nil) (TextNode "two" :: nil) ::
        nil) :: nil).

(** A catalogue with one style, and a selector engine for type selectors. *)
Definition browser : Styles.Browser :=
  {| Styles.STYLES := fun key =>
       if String.eqb key "wechat-default" then
         Some {| Styles.styles :=
                   ("container", "margin:0") :: ("p", "font-size:14px") ::
                   ("pre", "font-size:14px") :: nil |}
       else None;
     Styles.parseFromString := fun _ => document;
     Styles.outerHTML := serialize;
     Styles.selects := fun selector doc path =>
       match nodeAt doc path with
       | Some (Element t _ _) => String.eqb (toLowerCase t) selector
       | _ => false
       end |}.

(** A note with two images: one in the vault that is not there, one
    external. *)
Definition gallery : node :=
  Element "DIV" nil
    (Element "IMG" (("src", "app://local/home/me/vault/missing.png") :: nil) nil ::
     Element "IMG" (("src", "https://example.org/ok.png") :: nil) nil :: nil).

(** A rendering of one block, which ends at 1010; the first poll of
    [untilRendered] is at 1020, and the polls are 20 ms apart. *)
Definition rendering (wrapper : node) : Session.Rendering :=
  {| Session.rendered := Fulfilled tt;
     Session.blocks := Session.BlockStart :: Session.BlockEnd 1010 :: nil;
     Session.polls := fun k =>
       {| Session.now := 1020 + 20 * Z.of_nat k; Session.during := nil |};
     Session.afterwards := nil;
     Session.components := Fulfilled tt;
     Session.wrapper := wrapper |}.

Definition galleryHost : Session.Host :=
  {| Session.markdownRenderer := fun _ _ => rendering gallery;
     Session.simplifyCodeBlocks := fun html => html;
     Session.clipboardWrite := fun _ => Fulfilled tt |}.

Definition host : Session.Host :=
  {| Session.markdownRenderer := fun markdown _ =>
       rendering (Element "DIV" nil (TextNode markdown :: nil));
     Session.simplifyCodeBlocks := fun html => html;
     Session.clipboardWrite := fun _ => Fulfilled tt |}.

End Demo.

(* ================================================================== *)
(** * The loop of a repetition *)
(* ================================================================== *)

Module RegexLoop.
Import JS Regex.

(** The iterations of [a*] and [a*?] in [run], with the iterations left. *)
Definition starLoop (g : bool) (a : re) (k : mstate -> option mstate)
  : nat -> mstate -> option mstate :=
  fix loop (fuel : nat) (s : mstate) {struct fuel} : option mstate :=
    match fuel with
    | O => k s
    | S f =>
        if g then
          match run a s (fun s1 => if Nat.ltb (pos s) (pos s1) then loop f s1 else None) with
          | Some x => Some x
          | None => k s
          end
        else
          match k s with
          | Some x => Some x
          | None => run a s (fun s1 => if Nat.ltb (pos s) (pos s1) then loop f s1 else None)
          end
    end.

(** Every match of [r] consumes the character [c]: on a text without [c],
    [r] fails whatever follows. *)
Definition Needs (c : ascii) (r : re) : Prop :=
  forall s k, has_char c (rest s) = false -> run r s k = None.

End RegexLoop.

(* ================================================================== *)
(** * What holds of a tree *)
(* ================================================================== *)

Module Tree.
Import Dom.

(** Every element below [n] (not [n] itself) satisfies [q]. *)
Fixpoint allDescendants (q : string -> attributes -> bool) (n : node) : bool :=
  match n with
  | TextNode _ => true
  | Element _ _ ks =>
      forallb
        (fun k => match k with
                  | TextNode _ => true
                  | Element t a _ => q t a
                  end && allDescendants q k) ks
  end.

(** [node.textContent]. *)
Fixpoint textContent (n : node) : string :=
  match n with
  | TextNode d => d
  | Element _ _ ks => fold_right (fun k acc => textContent k ++ acc) EmptyString ks
  end.

(** The tree without the [src] attributes of its [img] elements. *)
Fixpoint withoutImgSrc (n : node) : node :=
  match n with
  | TextNode _ => n
  | Element t a ks =>
      Element t (if String.eqb t "IMG" then removeAttribute "src" a else a)
        (List.map withoutImgSrc ks)
  end.

(** A checkbox carries [disabled="disabled"]. *)
Definition checkboxDisabled (t : string) (a : attributes) : bool :=
  implb (Images.isCheckbox t a)
        (match getAttribute "disabled" a with
         | Some v => String.eqb v "disabled"
         | None => false
         end).

End Tree.

(* ================================================================== *)
(** * The command alone: requests and completions over time *)
(* ================================================================== *)

Module Commands.
Import Session.

(** The command is invoked at a time (by the palette, to check or to run),
    or the call of [doCopy] in flight leaves through [finally]. *)
Inductive Step : Type :=
  | Invoke (t : Z) (activeView : option View) (checking : bool)
  | Finish.

Definition step (sys : System) (s : Step) : System :=
  match s with
  | Invoke t v checking => snd (request t (Command v checking) sys)
  | Finish =>
      match inflight sys with
      | nil => sys
      | _ :: _ => leave 0 sys
      end
  end.

(** The plugin is loaded at time [t0]; then the steps happen. *)
Definition after (t0 : Z) (steps : list Step) : System :=
  fold_left step steps {| globals := initial t0; inflight := nil |}.

(** The flag is set exactly while a call of [doCopy] is in flight, and
    there is at most one. *)
Definition exclusive (sys : System) : Prop :=
  (copyIsRunning (globals sys) = false /\ inflight sys = nil) \/
  (copyIsRunning (globals sys) = true /\ exists a, inflight sys = a :: nil).

End Commands.

(* ================================================================== *)
(** * A document with a list *)
(* ================================================================== *)

Module DemoList.
Import Dom.

(** A document with a list item that holds text and a [strong]. *)
Definition listDocument : node :=
  Element "HTML" nil
    (Element "HEAD" nil nil ::
     Element "BODY" nil
       (Element "UL" nil
          (Element "LI" (("class", "item") :: nil)
             (Element "STRONG" nil (TextNode "bold" :: nil) :: TextNode " and plain" :: nil)
           :: nil) :: nil) :: nil).

End DemoList.

(* ================================================================== *)
(** * Properties *)
(* ================================================================== *)

(** ** Strings *)

Module StringFacts.
Import JS.

Lemma append_nil_r (s : string) : s ++ "" = s.
Proof. induction s as [|c s IH]; simpl; [reflexivity | now rewrite IH]. Qed.

Lemma append_assoc (a b c : string) : (a ++ b) ++ c = a ++ (b ++ c).
Proof. induction a as [|x a IH]; simpl; [reflexivity | now rewrite IH]. Qed.

Lemma length_append (a b : string) :
  String.length (a ++ b) = (String.length a + String.length b)%nat.
Proof. induction a as [|x a IH]; simpl; [reflexivity | now rewrite IH]. Qed.

Lemma drop_all (s : string) : drop (String.length s) s = "".
Proof. induction s as [|c s IH]; simpl; [reflexivity | exact IH]. Qed.

Lemma drop_append (a b : string) : drop (String.length a) (a ++ b) = b.
Proof. induction a as [|x a IH]; simpl; [reflexivity | exact IH]. Qed.

Lemma has_char_append (c : ascii) (a b : string) :
  has_char c (a ++ b) = has_char c a || has_char c b.
Proof.
  induction a as [|x a IH]; simpl; [reflexivity |].
  rewrite IH. now rewrite orb_assoc.
Qed.

Lemma lastIndexOf_from_absent (c : ascii) (s : string) :
  forall i last, has_char c s = false -> lastIndexOf_from c i last s = last.
Proof.
  induction s as [|d s IH]; intros i last H; simpl in *; [reflexivity |].
  apply orb_false_iff in H as [Hd Hs]. rewrite Hd. now apply IH.
Qed.

Lemma lastIndexOf_from_last (c : ascii) (d t : string) :
  forall i last,
    has_char c t = false ->
    lastIndexOf_from c i last (d ++ String c t) = i + len d.
Proof.
  induction d as [|x d IH]; intros i last H; simpl.
  - rewrite Ascii.eqb_refl. rewrite lastIndexOf_from_absent by assumption.
    unfold len; simpl; lia.
  - rewrite IH by assumption. unfold len; simpl String.length. lia.
Qed.

Lemma slice_at (s : string) (n : nat) :
  (n <= String.length s)%nat -> slice s (Z.of_nat n) = drop n s.
Proof.
  intros H. unfold slice, len.
  destruct (Z.of_nat n <? 0) eqn:E; [apply Z.ltb_lt in E; lia |].
  rewrite Z.min_l by lia. now rewrite Nat2Z.id.
Qed.

End StringFacts.

(** ** Mime types *)

Module MimeFacts.
Import JS Mime StringFacts.

Lemma fileName_lastSegment (path seg : string) :
  lastSegment path seg -> slice path (lastIndexOf path "/" + 1) = seg.
Proof.
  intros [Hseg [-> | [dir ->]]]; unfold lastIndexOf.
  - rewrite lastIndexOf_from_absent by assumption.
    change (-1 + 1) with (Z.of_nat 0). rewrite slice_at by lia. reflexivity.
  - rewrite lastIndexOf_from_last by assumption.
    replace (0 + len dir + 1) with (Z.of_nat (String.length dir + 1)) by (unfold len; lia).
    rewrite slice_at by (rewrite length_append; simpl; lia).
    replace (String.length dir + 1)%nat with (String.length (dir ++ "/")).
    + change (String "/" seg) with ("/" ++ seg).
      rewrite <- append_assoc. apply drop_append.
    + rewrite length_append. reflexivity.
Qed.

Lemma extension_absent (seg : string) :
  has_char "." seg = false ->
  slice seg (or_num (lastIndexOf seg "." + 1) (len seg)) = "".
Proof.
  intros H. unfold lastIndexOf. rewrite lastIndexOf_from_absent by assumption.
  change (or_num (-1 + 1) (len seg)) with (len seg).
  unfold len. rewrite slice_at by lia. apply drop_all.
Qed.

Lemma extension_present (base ext : string) :
  has_char "." ext = false ->
  slice (base ++ String "." ext)
        (or_num (lastIndexOf (base ++ String "." ext) "." + 1)
                (len (base ++ String "." ext))) = ext.
Proof.
  intros H. unfold lastIndexOf. rewrite lastIndexOf_from_last by assumption.
  unfold or_num.
  destruct (0 + len base + 1 =? 0) eqn:E; [apply Z.eqb_eq in E; unfold len in E; lia |].
  replace (0 + len base + 1) with (Z.of_nat (String.length (base ++ "."))).
  - rewrite slice_at.
    + change (String "." ext) with ("." ++ ext).
      rewrite <- append_assoc. apply drop_append.
    + rewrite !length_append. simpl. lia.
  - rewrite length_append. unfold len. simpl. lia.
Qed.

Lemma mime_of_lower (e : string) :
  or_undef (mimeMap !! or_str e "png") ("image/" ++ or_str e "png") = mimeOfExtension e.
Proof.
  unfold mimeOfExtension.
  destruct (String.eqb_spec e "") as [-> | Hne]; [vm_compute; reflexivity |].
  assert (or_str e "png" = e) as -> by (destruct e; [congruence | reflexivity]).
  destruct (String.eqb_spec e "svg") as [-> | Hsvg]; [vm_compute; reflexivity |].
  destruct (String.eqb_spec e "jpg") as [-> | Hjpg]; [vm_compute; reflexivity |].
  unfold mimeMap.
  rewrite lookup_insert_ne by congruence.
  rewrite lookup_insert_ne by congruence.
  rewrite lookup_empty. reflexivity.
Qed.

(** C8.  [guessMimeType] goes by the text after the last dot of the last
    [/]-delimited segment of the path, in lower case: [svg] gives
    [image/svg+xml], [jpg] gives [image/jpeg], any other extension [ext]
    gives [image/ext], and a segment without an extension gives
    [image/png]. *)
Theorem guessMimeType_by_extension (path seg : string) :
  lastSegment path seg ->
  (has_char "." seg = false -> guessMimeType path = "image/png") /\
  (forall base ext,
      seg = base ++ String "." ext ->
      has_char "." ext = false ->
      guessMimeType path = mimeOfExtension (toLowerCase ext)).
Proof.
  intros Hseg. unfold guessMimeType, getExtension.
  rewrite (fileName_lastSegment _ _ Hseg). split.
  - intros Hdot. rewrite extension_absent by assumption. vm_compute. reflexivity.
  - intros base ext -> Hdot. rewrite extension_present by assumption.
    apply mime_of_lower.
Qed.

Lemma guessMimeType_by_extension_witness :
  guessMimeType "attachments/v1.2/Diagram.SVG" = "image/svg+xml" /\
  guessMimeType "attachments/v1.2/README" = "image/png".
Proof.
  split.
  - refine (proj2 (guessMimeType_by_extension
                     "attachments/v1.2/Diagram.SVG" "Diagram.SVG" _) "Diagram" "SVG" _ _).
    + split; [reflexivity | right; exists "attachments/v1.2"; reflexivity].
    + reflexivity.
    + reflexivity.
  - refine (proj1 (guessMimeType_by_extension
                     "attachments/v1.2/README" "README" _) _).
    + split; [reflexivity | right; exists "attachments/v1.2"; reflexivity].
    + reflexivity.
Defined.

Example guessMimeType_jpg : guessMimeType "a.b/photo.JPG" = "image/jpeg".
Proof. vm_compute. reflexivity. Qed.

Example guessMimeType_other : guessMimeType "x.tar.GZ" = "image/gz".
Proof. vm_compute. reflexivity. Qed.

Example guessMimeType_trailing_dot : guessMimeType "dir.d/name." = "image/png".
Proof. vm_compute. reflexivity. Qed.

End MimeFacts.

(** ** The list normalizer *)

Module ListNormalizerFacts.
Import ListNormalizer.

(** C9.  The two lines ["- item one"] and ["  : continuation text"] are
    merged into the single line ["- item one: continuation text"]. *)
Theorem preprocessMarkdownList_continuation :
  preprocessMarkdownList ("- item one" ++ String "010" "  : continuation text")
  = "- item one: continuation text".
Proof. vm_compute. reflexivity. Qed.

(** The first rule alone does the merge; the other three find nothing left
    to do. *)
Example rule1_merges :
  Regex.replace_all rule1 tpl_colon ("- item one" ++ String "010" "  : continuation text")
  = "- item one: continuation text".
Proof. vm_compute. reflexivity. Qed.

Example rules_apply_to_every_item :
  preprocessMarkdownList
    ("1. a:  " ++ String "010" ("   b" ++ String "010" ("* c" ++ String "010"
       (String "010" ("  d" ++ String "010" ("- x" ++ String "010" ": y"))))))
  = "1. a: b" ++ String "010" ("* c d" ++ String "010" "- x: y").
Proof. vm_compute. reflexivity. Qed.

End ListNormalizerFacts.

(** ** The HTML template *)

Module TemplateFacts.
Import JS Template StringFacts.

Lemma template_pieces :
  DEFAULT_HTML_TEMPLATE =
  before_title ++ "${title}" ++ title_to_stylesheet ++ "${stylesheet}" ++
  stylesheet_to_body ++ "${body}" ++ after_body.
Proof. vm_compute. reflexivity. Qed.

Lemma isPrefix_append (p s : string) : isPrefix p (p ++ s) = true.
Proof.
  induction p as [|a p IH]; simpl; [reflexivity |].
  now rewrite Ascii.eqb_refl.
Qed.

Lemma isPrefix_split (p s : string) :
  isPrefix p s = true -> s = p ++ drop (String.length p) s.
Proof.
  revert s. induction p as [|a p IH]; intros s H; simpl in *; [reflexivity |].
  destruct s as [|b s]; [discriminate |].
  apply andb_true_iff in H as [Hab Hp].
  apply Ascii.eqb_eq in Hab as ->. simpl. f_equal. now apply IH.
Qed.

(** A pattern cannot reach across a character it does not contain. *)
Lemma isPrefix_boundary (pat t : string) (c : ascii) (r : string) :
  has_char c pat = false ->
  pat <> "" ->
  isPrefix pat (t ++ String c r) = isPrefix pat t.
Proof.
  revert t. induction pat as [|a pat IH]; intros t Hc Hne; [congruence |].
  simpl in Hc. apply orb_false_iff in Hc as [Hac Hpat].
  destruct t as [|b t]; simpl.
  - rewrite Hac. reflexivity.
  - destruct pat as [|a' pat']; [reflexivity |].
    rewrite IH by (assumption || congruence). reflexivity.
Qed.

Lemma find_found (pat s pre post : string) :
  find pat s = Some (pre, post) -> s = pre ++ pat ++ post.
Proof.
  revert pre post. induction s as [|c s IH]; intros pre post; simpl.
  - destruct (isPrefix pat "") eqn:E; [| discriminate].
    intros [= <- <-]. now apply isPrefix_split in E.
  - destruct (isPrefix pat (String c s)) eqn:E.
    + intros [= <- <-]. now apply isPrefix_split in E.
    + destruct (find pat s) as [[a b]|] eqn:F; [| discriminate].
      intros [= <- <-]. simpl. f_equal. now apply IH.
Qed.

Lemma find_first (pat s pre post : string) :
  find pat s = Some (pre, post) ->
  forall x y, s = x ++ pat ++ y -> (String.length pre <= String.length x)%nat.
Proof.
  revert pre post. induction s as [|c s IH]; intros pre post; simpl.
  - destruct (isPrefix pat ""); [| discriminate].
    intros [= <- <-] x y _. simpl. lia.
  - destruct (isPrefix pat (String c s)) eqn:E.
    + intros [= <- <-] x y _. simpl. lia.
    + destruct (find pat s) as [[a b]|] eqn:F; [| discriminate].
      intros [= <- <-] x y Hs. destruct x as [|d x].
      * simpl in Hs. rewrite Hs, isPrefix_append in E. discriminate.
      * simpl in Hs. injection Hs as _ Hs. simpl.
        specialize (IH a b eq_refl x y Hs). lia.
Qed.

Lemma find_absent (pat s : string) : find pat s = None -> ~ occurs pat s.
Proof.
  induction s as [|c s IH]; simpl.
  - destruct (isPrefix pat "") eqn:E; [discriminate |].
    intros _ (x & y & H). destruct x; simpl in H.
    + rewrite H, isPrefix_append in E. discriminate.
    + discriminate.
  - destruct (isPrefix pat (String c s)) eqn:E; [discriminate |].
    destruct (find pat s) as [[a b]|] eqn:F; [discriminate |].
    intros _ (x & y & H). destruct x as [|d x]; simpl in H.
    + rewrite H, isPrefix_append in E. discriminate.
    + injection H as _ H. apply IH; [reflexivity | now exists x, y].
Qed.

Lemma find_nil (pat : string) :
  find pat "" = if isPrefix pat "" then Some ("", drop (String.length pat) "") else None.
Proof. reflexivity. Qed.

Lemma find_cons (pat : string) (d : ascii) (s : string) :
  find pat (String d s) =
  if isPrefix pat (String d s) then Some ("", drop (String.length pat) (String d s))
  else match find pat s with
       | Some (pre, post) => Some (String d pre, post)
       | None => None
       end.
Proof. reflexivity. Qed.

(** Text without the first character of the pattern is skipped. *)
Lemma find_skip (c : ascii) (p x y : string) :
  has_char c x = false ->
  find (String c p) (x ++ y) =
  match find (String c p) y with
  | Some (a, b) => Some (x ++ a, b)
  | None => None
  end.
Proof.
  induction x as [|d x IH]; intros H.
  - change ("" ++ y) with y.
    destruct (find (String c p) y) as [[a b]|]; reflexivity.
  - simpl in H. apply orb_false_iff in H as [Hd Hx].
    change (String d x ++ y) with (String d (x ++ y)).
    rewrite find_cons. cbn [isPrefix]. rewrite Ascii.eqb_sym, Hd. cbn [andb].
    rewrite IH by assumption.
    destruct (find (String c p) y) as [[a b]|]; reflexivity.
Qed.

Lemma drop_append_le (n : nat) (a b : string) :
  (n <= String.length a)%nat -> drop n (a ++ b) = drop n a ++ b.
Proof.
  revert a. induction n as [|n IH]; intros a H; [reflexivity |].
  destruct a as [|c a]; simpl in *; [lia |]. apply IH. lia.
Qed.

Lemma isPrefix_length (p s : string) :
  isPrefix p s = true -> (String.length p <= String.length s)%nat.
Proof.
  revert s. induction p as [|a p IH]; intros s H; simpl in *; [lia |].
  destruct s as [|b s]; [discriminate |].
  apply andb_true_iff in H as [_ H]. apply IH in H. simpl. lia.
Qed.

(** An occurrence that starts in [t] ends in [t] when the text after [t]
    starts with a character the pattern does not contain. *)
Lemma find_boundary (pat t : string) (c : ascii) (r : string) :
  has_char c pat = false ->
  pat <> "" ->
  find pat (t ++ String c r) =
  match find pat t with
  | Some (a, b) => Some (a, b ++ String c r)
  | None =>
      match find pat (String c r) with
      | Some (a, b) => Some (t ++ a, b)
      | None => None
      end
  end.
Proof.
  intros Hc Hne. induction t as [|d t IH].
  - assert (find pat "" = None) as E
      by (rewrite find_nil; destruct pat; [congruence | reflexivity]).
    rewrite E. change ("" ++ String c r) with (String c r).
    destruct (find pat (String c r)) as [[a b]|]; reflexivity.
  - change (String d t ++ String c r) with (String d (t ++ String c r)).
    rewrite (find_cons pat d (t ++ String c r)), (find_cons pat d t).
    change (String d (t ++ String c r)) with (String d t ++ String c r).
    rewrite isPrefix_boundary by assumption.
    destruct (isPrefix pat (String d t)) eqn:E.
    + rewrite drop_append_le by now apply isPrefix_length. reflexivity.
    + rewrite IH. destruct (find pat t) as [[a b]|]; [reflexivity |].
      destruct (find pat (String c r)) as [[a b]|]; reflexivity.
Qed.

Lemma find_here (c : ascii) (p z : string) :
  find (String c p) (String c p ++ z) = Some ("", z).
Proof.
  change (String c p ++ z) with (String c (p ++ z)). rewrite find_cons.
  change (String c (p ++ z)) with (String c p ++ z).
  rewrite isPrefix_append, drop_append. reflexivity.
Qed.

Lemma find_without_first_char (c : ascii) (p t : string) :
  has_char c t = false -> find (String c p) t = None.
Proof.
  induction t as [|d t IH]; intros H; [reflexivity |].
  simpl in H. apply orb_false_iff in H as [Hd Ht].
  rewrite find_cons. cbn [isPrefix]. rewrite Ascii.eqb_sym, Hd. cbn [andb].
  now rewrite IH.
Qed.

Lemma getSubstitution_plain (matched pre post rep : string) :
  has_char "$" rep = false -> getSubstitution matched pre post rep = rep.
Proof.
  induction rep as [|c rep IH]; intros H; [reflexivity |].
  simpl in H. apply orb_false_iff in H as [Hc Hrep].
  cbn [getSubstitution]. rewrite Hc. now rewrite IH.
Qed.

(** One call of [replace] on a text [A ++ t ++ R], where [A] is free of the
    pattern's first character, [R] starts with a character the pattern
    does not contain and has its first occurrence of the pattern after
    [pre]: the frame [A .. pre .. post] is kept, and unless [t] itself
    holds the pattern, the placeholder after [pre] is what is replaced. *)
Lemma replace_framed (c0 : ascii) (p A t : string) (c : ascii) (r pre post rep : string) :
  has_char c0 A = false ->
  has_char c (String c0 p) = false ->
  find (String c0 p) (String c r) = Some (pre, post) ->
  exists t' x,
    replace (A ++ t ++ String c r) (String c0 p) rep = A ++ t' ++ pre ++ x ++ post /\
    (find (String c0 p) t = None ->
     t' = t /\ x = getSubstitution (String c0 p) (A ++ t ++ pre) post rep).
Proof.
  intros HA Hc HR. unfold replace.
  rewrite find_skip by assumption.
  rewrite find_boundary by (assumption || congruence).
  destruct (find (String c0 p) t) as [[a b]|] eqn:Ft.
  - apply find_found in HR. apply find_found in Ft.
    exists (a ++ getSubstitution (String c0 p) (A ++ a) (b ++ String c r) rep ++ b),
           (String c0 p).
    split; [| discriminate].
    rewrite HR. rewrite !append_assoc. reflexivity.
  - rewrite HR.
    exists t, (getSubstitution (String c0 p) (A ++ t ++ pre) post rep).
    split; [| intros _; split; reflexivity].
    rewrite !append_assoc. reflexivity.
Qed.

Lemma find_title :
  find "${title}" DEFAULT_HTML_TEMPLATE =
  Some (before_title,
        title_to_stylesheet ++ "${stylesheet}" ++ stylesheet_to_body ++ "${body}" ++ after_body).
Proof. vm_compute. reflexivity. Qed.

Lemma find_body_after_title :
  find "${body}"
    (title_to_stylesheet ++ "${stylesheet}" ++ stylesheet_to_body ++ "${body}" ++ after_body)
  = Some (title_to_stylesheet ++ "${stylesheet}" ++ stylesheet_to_body, after_body).
Proof. vm_compute. reflexivity. Qed.

(** The Mermaid placeholder is not mistaken for the stylesheet
    placeholder, whatever follows. *)
Lemma find_stylesheet_after_title (z : string) :
  find "${stylesheet}" (title_to_stylesheet ++ "${stylesheet}" ++ z)
  = Some (title_to_stylesheet, z).
Proof.
  pose (b1 := "</title>" ++ nl ++ "  <style>" ++ nl ++ "    ").
  pose (b2 := "{MERMAID_STYLESHEET}" ++ nl ++ "    ").
  change (title_to_stylesheet ++ "${stylesheet}" ++ z)
    with (b1 ++ String "$" (b2 ++ "${stylesheet}" ++ z)).
  rewrite find_skip by reflexivity.
  rewrite find_cons.
  change (isPrefix "${stylesheet}" (String "$" (b2 ++ "${stylesheet}" ++ z))) with false.
  cbv iota.
  rewrite find_skip by reflexivity.
  rewrite find_here.
  change (b1 ++ String "$" (b2 ++ "")) with (title_to_stylesheet ++ "").
  now rewrite append_nil_r.
Qed.

(** For every style sheet, body and title, the output of
    [expandHtmlTemplate] keeps the text of the template around the three
    placeholders. *)
Lemma expandHtmlTemplate_frame (styleSheet html title : string) :
  exists t s b,
    expandHtmlTemplate styleSheet html title =
    before_title ++ t ++ title_to_stylesheet ++ s ++ stylesheet_to_body ++ b ++ after_body /\
    (has_char "$" title = false ->
     has_char "$" html = false ->
     has_char "$" styleSheet = false ->
     t = title /\ s = styleSheet /\ b = html).
Proof.
  unfold expandHtmlTemplate.
  unfold replace at 3. rewrite find_title.
  set (t1 := getSubstitution "${title}" before_title _ title).
  destruct (replace_framed "$" "{body}" before_title t1 "<"
              (drop 1 title_to_stylesheet ++ "${stylesheet}" ++ stylesheet_to_body ++
               "${body}" ++ after_body)
              (title_to_stylesheet ++ "${stylesheet}" ++ stylesheet_to_body) after_body html)
    as (t2 & x2 & E2 & P2);
    [reflexivity | reflexivity | exact find_body_after_title |].
  change (String "<" (drop 1 title_to_stylesheet ++ "${stylesheet}" ++ stylesheet_to_body ++
                      "${body}" ++ after_body))
    with (title_to_stylesheet ++ "${stylesheet}" ++ stylesheet_to_body ++ "${body}" ++ after_body)
    in E2.
  rewrite E2. rewrite !append_assoc.
  destruct (replace_framed "$" "{stylesheet}" before_title t2 "<"
              (drop 1 title_to_stylesheet ++ "${stylesheet}" ++ stylesheet_to_body ++
               x2 ++ after_body)
              title_to_stylesheet (stylesheet_to_body ++ x2 ++ after_body) styleSheet)
    as (t3 & x3 & E3 & P3);
    [reflexivity | reflexivity | exact (find_stylesheet_after_title _) |].
  change (String "<" (drop 1 title_to_stylesheet ++ "${stylesheet}" ++ stylesheet_to_body ++
                      x2 ++ after_body))
    with (title_to_stylesheet ++ "${stylesheet}" ++ stylesheet_to_body ++ x2 ++ after_body)
    in E3.
  rewrite E3.
  exists t3, x3, x2. split; [reflexivity |].
  intros Ht Hh Hs.
  assert (t1 = title) as E1 by (apply getSubstitution_plain; assumption).
  destruct P2 as [-> ->]; [rewrite E1; now apply find_without_first_char |].
  destruct P3 as [-> ->]; [rewrite E1; now apply find_without_first_char |].
  rewrite !getSubstitution_plain by assumption. now rewrite E1.
Qed.

(** With a title, body and style sheet free of dollar signs, each lands
    in its own place. *)
Lemma expandHtmlTemplate_plain (styleSheet html title : string) :
  has_char "$" title = false ->
  has_char "$" html = false ->
  has_char "$" styleSheet = false ->
  expandHtmlTemplate styleSheet html title =
  before_title ++ title ++ title_to_stylesheet ++ styleSheet ++ stylesheet_to_body ++
  html ++ after_body.
Proof.
  intros Ht Hh Hs.
  destruct (expandHtmlTemplate_frame styleSheet html title) as (t & s & b & E & P).
  destruct (P Ht Hh Hs) as (-> & -> & ->). exact E.
Qed.

(** A file named [Notes.md] and a body without a dollar sign: every
    placeholder of the template gets its text. *)
Example expandHtmlTemplate_of_a_note :
  expandHtmlTemplate "p { margin: 0 }" "<div><p>text</p></div>" "Notes" =
  before_title ++ "Notes" ++ title_to_stylesheet ++ "p { margin: 0 }" ++
  stylesheet_to_body ++ "<div><p>text</p></div>" ++ after_body.
Proof. now apply expandHtmlTemplate_plain. Qed.

(** C10, on the code.  The three calls of [replace] run one after the
    other on the text the previous one returned.  With the title
    [${body}] (a file named [${body}.md]) the first occurrence of
    [${body}] is the one the title brought in: the body lands in [<title>],
    and the placeholder of the template is still in [<body>], not
    replaced. *)
Theorem expandHtmlTemplate_title_takes_the_body (styleSheet html : string) :
  has_char "$" html = false ->
  has_char "$" styleSheet = false ->
  htmlDocument false styleSheet html "${body}" =
  before_title ++ html ++ title_to_stylesheet ++ styleSheet ++ stylesheet_to_body ++
  "${body}" ++ after_body.
Proof.
  intros Hh Hs. cbn [htmlDocument]. unfold expandHtmlTemplate.
  assert (replace DEFAULT_HTML_TEMPLATE "${title}" "${body}" =
          before_title ++ "${body}" ++ title_to_stylesheet ++ "${stylesheet}" ++
          stylesheet_to_body ++ "${body}" ++ after_body) as ->
    by (vm_compute; reflexivity).
  assert (forall z, replace (before_title ++ "${body}" ++ z) "${body}" html =
                    before_title ++ html ++ z) as E2.
  { intros z. unfold replace.
    rewrite find_skip by reflexivity. rewrite find_here.
    rewrite getSubstitution_plain by assumption.
    now rewrite append_nil_r. }
  rewrite E2. unfold replace.
  rewrite <- (append_assoc before_title html).
  rewrite find_skip by (rewrite has_char_append, Hh; reflexivity).
  rewrite find_stylesheet_after_title.
  rewrite getSubstitution_plain by assumption.
  now rewrite !append_assoc.
Qed.

Lemma expandHtmlTemplate_title_takes_the_body_witness :
  htmlDocument false "p { margin: 0 }" "<div><p>text</p></div>" "${body}" =
  before_title ++ "<div><p>text</p></div>" ++ title_to_stylesheet ++ "p { margin: 0 }" ++
  stylesheet_to_body ++ "${body}" ++ after_body.
Proof.
  apply (expandHtmlTemplate_title_takes_the_body "p { margin: 0 }" "<div><p>text</p></div>");
    reflexivity.
Defined.

(** The Mermaid placeholder is never replaced: it is still in [<style>],
    before the style sheet, whatever the title, body and style sheet. *)
Lemma expandHtmlTemplate_keeps_mermaid (styleSheet html title : string) :
  exists t s b,
    expandHtmlTemplate styleSheet html title =
    before_title ++ t ++
    ("</title>" ++ nl ++ "  <style>" ++ nl ++ "    ${MERMAID_STYLESHEET}" ++ nl ++ "    ") ++
    s ++ stylesheet_to_body ++ b ++ after_body.
Proof.
  destruct (expandHtmlTemplate_frame styleSheet html title) as (t & s & b & E & _).
  exists t, s, b. exact E.
Qed.

End TemplateFacts.

(** ** The inline style cascade *)

Module StylesFacts.
Import JS Async Dom Styles.

Lemma getAttribute_setAttribute (name value : string) (a : attributes) :
  getAttribute name (setAttribute name value a) = Some value.
Proof.
  induction a as [|[n v] a IH]; simpl.
  - now rewrite String.eqb_refl.
  - destruct (String.eqb n name) eqn:E; simpl; rewrite E; [reflexivity | exact IH].
Qed.

Lemma getAttribute_setAttribute_other (name other value : string) (a : attributes) :
  other <> name ->
  getAttribute other (setAttribute name value a) = getAttribute other a.
Proof.
  intros Hne. induction a as [|[n v] a IH]; simpl.
  - destruct (String.eqb_spec name other); [congruence | reflexivity].
  - destruct (String.eqb_spec n name) as [-> | Hn]; simpl.
    + destruct (String.eqb_spec name other); [congruence | reflexivity].
    + destruct (String.eqb n other); [reflexivity | exact IH].
Qed.

Lemma stylePass_Element (B : Browser) (style : StyleRuleSet) (selector : string)
    (doc0 : node) (path : list nat) (ancestors : list attributes)
    (t : string) (a : attributes) (ks : list node) :
  stylePass B style selector doc0 path ancestors (Element t a ks) =
  let ks' := styleChildren B style selector doc0 path (a :: ancestors) 0 ks in
  if selects B selector doc0 path then
    match styleElement style selector ancestors t a with
    | Untouched => Element t a ks'
    | Styled a' => Element t a' ks'
    | WrappedLi a' => Element t a' (Element "P" nil ks :: nil)
    end
  else Element t a ks'.
Proof. reflexivity. Qed.

Lemma styleChildren_nth (B : Browser) (style : StyleRuleSet) (selector : string)
    (doc0 : node) (path : list nat) (ancestors : list attributes) (ks : list node) :
  forall i j k,
    nth_error ks j = Some k ->
    nth_error (styleChildren B style selector doc0 path ancestors i ks) j =
    Some (stylePass B style selector doc0 (path ++ (i + j)%nat :: nil)%list ancestors k).
Proof.
  induction ks as [|k0 ks IH]; intros i j k H.
  - destruct j; discriminate.
  - destruct j as [|j]; simpl in *.
    + injection H as ->. now rewrite Nat.add_0_r.
    + rewrite (IH (S i) j k H). now rewrite Nat.add_succ_r.
Qed.





(** The same on the whole of [applyInlineStyles]: the [p] ends with both
    declarations, [color:red] first; the [pre] keeps its own. *)
Example applyInlineStyles_demo :
  applyInlineStyles Demo.browser "" "wechat-default" =
  (nil,
   Return ("<div style='margin:0'><p style='color:red; font-size:14px'>one</p>" ++
           "<pre style='color:red'>two</pre></div>")).
Proof. vm_compute. reflexivity. Qed.

(** C2, on the code.  When the style name is not in [STYLES],
    [applyInlineStyles] logs the warning and then throws a [TypeError]
    (it reads [styles] of [undefined]). *)
Theorem applyInlineStyles_unknown_style_throws (B : Browser) (html applyStyle : string) :
  STYLES B applyStyle = None ->
  applyInlineStyles B html applyStyle =
  (Warn ("样式 " ++ applyStyle ++ " 不存在，使用默认样式") :: nil,
   Throw (TypeError "Cannot read properties of undefined (reading 'styles')")).
Proof. intros H. unfold applyInlineStyles. now rewrite H. Qed.

Lemma applyInlineStyles_unknown_style_throws_witness :
  applyInlineStyles Demo.browser "<p>text</p>" "no-such-style" =
  (Warn ("样式 " ++ "no-such-style" ++ " 不存在，使用默认样式") :: nil,
   Throw (TypeError "Cannot read properties of undefined (reading 'styles')")).
Proof.
  apply (applyInlineStyles_unknown_style_throws Demo.browser "<p>text</p>" "no-such-style").
  reflexivity.
Defined.

(** The exception reaches [doCopy]: the copy ends with the failure notice
    and nothing on the clipboard, after the warning that announced a
    default style. *)
Example doCopy_unknown_style_fails :
  Session.doCopy Demo.world Demo.browser Demo.host
    {| Settings.removeFrontMatter := true;
       Settings.convertSvgToBitmap := true;
       Settings.removeDataviewMetadataLines := false;
       Settings.disableImageEmbedding := false;
       Settings.styleSheet := "";
       Settings.bareHtmlOnly := false;
       Settings.fileNameAsHeader := false;
       Settings.styleSheetStyle := "no-such-style" |}
    10 1000 (Session.MakeArgs "text" "notes/a.md" "a.md" true) (Session.initial 5)
  = Some (Session.MakeGlobals false false 1010,
          Session.MakeReport
            "copy failed: Cannot read properties of undefined (reading 'styles')"
            None
            (Debug ("Copying " ++ Template.dquote ++ "notes/a.md" ++ Template.dquote ++
                    " to clipboard...") ::
             Warn "样式 no-such-style 不存在，使用默认样式" ::
             ConsoleError "复制失败" :: nil)).
Proof. vm_compute. reflexivity. Qed.

End StylesFacts.

(** ** The orchestrator *)

Module SessionFacts.
Import JS Async Dom Session.

(** With the sentinel in [ppLastBlockDate], [untilRendered] returns
    without a single delay. *)
Lemma untilRendered_sentinel (fuel : nat) (world : nat -> Tick) (n : nat) (g : Globals) :
  ppLastBlockDate g = 0 ->
  untilRendered (S fuel) world n g = Some (g, n).
Proof.
  intros H. cbn [untilRendered]. rewrite H.
  destruct (ppIsProcessing g || (now (world n) - 0 <? optionRenderSettlingDelay));
    reflexivity.
Qed.

(** No assignment in [main.ts] stores the sentinel: the module
    initialiser, [doCopy] and the post processor all store a time. *)
Lemma ppLastBlockDate_is_a_time (t : Z) (g : Globals) :
  ppLastBlockDate (initial t) = t /\
  ppLastBlockDate (doCopy_enter t g) = t /\
  ppLastBlockDate (afterAllPostProcessor t g) = t /\
  ppLastBlockDate (beforeAllPostProcessor g) = ppLastBlockDate g.
Proof. repeat split. Qed.

(** C3, on the code.  [doCopy] enters with [ppIsProcessing] set and the
    current time in [ppLastBlockDate]; when no block ever goes through the
    post processors, [untilRendered] is still polling after any number of
    delays. *)
Theorem untilRendered_zero_blocks_polls_forever
    (fuel : nat) (world : nat -> Tick) (t0 : Z) (g : Globals) (n : nat) :
  t0 <> 0 ->
  (forall k, during (world k) = nil) ->
  untilRendered fuel world n (doCopy_enter t0 g) = None.
Proof.
  intros Ht Hquiet. revert n.
  induction fuel as [|fuel IH]; intros n; [reflexivity |].
  cbn [untilRendered]. rewrite Hquiet.
  cbn [doCopy_enter ppIsProcessing ppLastBlockDate orb fold_left].
  destruct (t0 =? 0) eqn:E; [apply Z.eqb_eq in E; contradiction |].
  apply IH.
Qed.

(** A clock that advances by 20 ms per poll, and a renderer that never
    calls the post processors. *)
Lemma untilRendered_zero_blocks_polls_forever_witness :
  untilRendered 500 (fun k => {| now := 1000 + 20 * Z.of_nat k; during := nil |}) 0
    (doCopy_enter 1000 (initial 5)) = None.
Proof.
  apply (untilRendered_zero_blocks_polls_forever 500
           (fun k => {| now := 1000 + 20 * Z.of_nat k; during := nil |}) 1000 (initial 5) 0).
  - discriminate.
  - reflexivity.
Defined.

(** With one block, the loop is left once the settling delay has passed
    since the block ended. *)
Example untilRendered_one_block :
  untilRendered 50
    (fun k => {| now := 1000 + 20 * Z.of_nat k;
                 during := match k with
                           | O => BlockStart :: BlockEnd 1010 :: nil
                           | _ => nil
                           end |})
    0 (doCopy_enter 1000 (initial 5))
  = Some (MakeGlobals true false 1010, 6%nat).
Proof. vm_compute. reflexivity. Qed.

(** The command is refused while a copy is running, and the system is
    left as it is. *)
Lemma command_refused_while_running (t : Z) (sys : System)
    (activeView : option View) (checking : bool) :
  copyIsRunning (globals sys) = true ->
  checkCallback (globals sys) activeView checking = Return (false, None) /\
  request t (Command activeView checking) sys = (Return false, sys).
Proof.
  intros H. unfold request, checkCallback. rewrite H. split; reflexivity.
Qed.

(** C4, on the code.  The file-menu item does not look at
    [copyIsRunning]: on a Markdown file it enters [doCopy] while another
    call is in flight, and overwrites the variables the call in flight
    polls. *)
Theorem fileMenu_enters_while_running (t : Z) (sys : System) (f : File) :
  copyIsRunning (globals sys) = true ->
  toLowerCase (extension f) = "md" ->
  request t (FileMenu (TFile f)) sys =
  (Return true,
   {| globals := {| copyIsRunning := true; ppIsProcessing := true; ppLastBlockDate := t |};
      inflight := (inflight sys ++
                   {| markdown := cachedRead f; path := file_path f;
                      name := file_name f; isFullDocument := true |} :: nil)%list |}).
Proof.
  intros _ Hmd. unfold request, copyFromFile. rewrite Hmd. reflexivity.
Qed.

(** A copy started from the command palette at time 1000 is in flight,
    its block has ended at 1010; the file-menu item is used at 1050. *)
Lemma fileMenu_enters_while_running_witness :
  request 1050
    (FileMenu (TFile (MakeFile "notes/b.md" "b.md" "md" "second note")))
    {| globals := MakeGlobals true false 1010;
       inflight := MakeArgs "first note" "notes/a.md" "a.md" true :: nil |}
  = (Return true,
     {| globals := MakeGlobals true true 1050;
        inflight := MakeArgs "first note" "notes/a.md" "a.md" true ::
                    MakeArgs "second note" "notes/b.md" "b.md" true :: nil |}).
Proof.
  apply (fileMenu_enters_while_running 1050
           {| globals := MakeGlobals true false 1010;
              inflight := MakeArgs "first note" "notes/a.md" "a.md" true :: nil |}
           (MakeFile "notes/b.md" "b.md" "md" "second note")).
  - reflexivity.
  - reflexivity.
Defined.

(** When the second call leaves, the flag is cleared although the first
    is still in flight, and the command is accepted again. *)
Example flag_cleared_with_a_copy_in_flight :
  let sys :=
    leave 1
      {| globals := MakeGlobals true true 1050;
         inflight := MakeArgs "first note" "notes/a.md" "a.md" true ::
                     MakeArgs "second note" "notes/b.md" "b.md" true :: nil |} in
  copyIsRunning (globals sys) = false /\
  inflight sys = MakeArgs "first note" "notes/a.md" "a.md" true :: nil /\
  fst (request 1100 (Command (Some (MakeView (Some (MakeEditor false "")) None "")) true) sys)
  = Return true.
Proof. repeat split. Qed.

(** While a block is marked as being processed and nothing clears the
    mark, the loop goes on. *)
Lemma untilRendered_while_processing (world : nat -> Tick) (g : Globals) :
  ppIsProcessing g = true ->
  ppLastBlockDate g <> 0 ->
  (forall k, during (world k) = nil) ->
  forall fuel n, untilRendered fuel world n g = None.
Proof.
  intros Hp Ht Hquiet. induction fuel as [|fuel IH]; intros n; [reflexivity |].
  cbn [untilRendered]. rewrite Hp, Hquiet. cbn [orb fold_left].
  destruct (ppLastBlockDate g =? 0) eqn:E; [apply Z.eqb_eq in E; contradiction |].
  apply IH.
Qed.

(** So a copy of a note that renders without a block never ends: neither
    notice is shown and the flag stays set. *)
Lemma doCopy_without_blocks_never_ends (W : Images.World) (B : Styles.Browser) (H : Host)
    (o : Settings.t) (fuel : nat) (t : Z) (a : CopyArgs) (g : Globals) :
  let r := markdownRenderer H (Markdown.preprocessMarkdown o (markdown a)) (path a) in
  rendered r = Fulfilled tt ->
  blocks r = nil ->
  (forall k, during (polls r k) = nil) ->
  t <> 0 ->
  doCopy W B H o fuel t a g = None.
Proof.
  intros r Hr Hb Hquiet Ht.
  unfold doCopy, doCopy_try, renderDocument, renderMarkdown. fold r.
  rewrite Hr, Hb. cbn [fold_left].
  rewrite (untilRendered_while_processing (polls r) (doCopy_enter t g) eq_refl Ht Hquiet).
  reflexivity.
Qed.

(** [doCopy] on the rejection of its [try] block: the failure notice,
    nothing on the clipboard, the flag released and the other two
    variables as they were. *)
Lemma doCopy_leave_rejected (logged : list log) (e : JsError) (g : Globals) :
  doCopy_leave logged (Rejected e) g =
  Some ({| copyIsRunning := false;
           ppIsProcessing := ppIsProcessing g;
           ppLastBlockDate := ppLastBlockDate g |},
        {| notice := "copy failed: " ++ message_of e;
           clipboard := None;
           console := (logged ++ ConsoleError "复制失败" :: nil)%list |}).
Proof. reflexivity. Qed.

(** A rejection of [embedImages] is the rejection of the [try] block. *)
Lemma doCopy_try_embedImages_rejected (W : Images.World) (B : Styles.Browser) (H : Host)
    (o : Settings.t) (fuel : nat) (a : CopyArgs) (g : Globals) (element : node)
    (e : JsError) :
  Settings.disableImageEmbedding o = false ->
  snd (renderMarkdown H o fuel (markdown a) (path a) g) = Fulfilled element ->
  Images.embedImages W o (Images.cleanup o element) = Rejected e ->
  snd (doCopy_try W B H o fuel a g) = (nil, Rejected e).
Proof.
  intros Hd Hr He. unfold doCopy_try, renderDocument, Images.transformHTML.
  cbn [fst snd]. rewrite Hr. cbn [await]. rewrite Hd, He. reflexivity.
Qed.


End SessionFacts.

(** ** The batch join *)

Module BatchFacts.
Import Async Batch.

Lemma run_snoc (total : nat) (evs : list settlement) (ev : settlement) :
  run total (evs ++ ev :: nil)%list = settle total (run total evs) ev.
Proof. unfold run. now rewrite fold_left_app. Qed.

Lemma first_reason_snoc (evs : list settlement) (ev : settlement) :
  first_reason (evs ++ ev :: nil)%list =
  match first_reason evs with
  | Some e => Some e
  | None => match ev with Rejects _ e => Some e | Fulfils _ => None end
  end.
Proof.
  induction evs as [|[i | i e] evs IH]; simpl.
  - destruct ev; reflexivity.
  - exact IH.
  - reflexivity.
Qed.

Lemma schedule_length (total : nat) (evs : list settlement) :
  schedule total evs -> (List.length evs <= total)%nat.
Proof.
  intros [Hnd Hlt].
  assert (List.length (List.map index_of evs) <= List.length (List.seq 0%nat total))%nat as H.
  { apply List.NoDup_incl_length; [exact Hnd |].
    intros i Hi. apply List.in_map_iff in Hi as (ev & <- & Hev).
    apply List.in_seq. rewrite List.Forall_forall in Hlt.
    specialize (Hlt ev Hev). lia. }
  now rewrite List.length_map, List.length_seq in H.
Qed.

Lemma schedule_snoc (total : nat) (evs : list settlement) (ev : settlement) :
  schedule total (evs ++ ev :: nil)%list -> schedule total evs.
Proof.
  intros [Hnd Hlt]. split.
  - rewrite List.map_app in Hnd. now apply List.NoDup_app_remove_r in Hnd.
  - apply List.Forall_app in Hlt. tauto.
Qed.

(** What the handlers and [Promise.all] have done after a schedule. *)
Lemma run_invariant (total : nat) (evs : list settlement) :
  schedule total evs ->
  count (run total evs) = List.length evs /\
  (first_reason evs = None -> seen (run total evs) = List.length evs) /\
  joined (run total evs) =
    match first_reason evs with
    | Some e => Rejected e
    | None => if Nat.eqb (List.length evs) total then Fulfilled tt else Pending
    end.
Proof.
  induction evs as [|ev evs IH] using rev_ind; intros Hs.
  - repeat split. unfold run; simpl. destruct total; reflexivity.
  - pose proof (schedule_length _ _ Hs) as Hlen.
    rewrite List.length_app in Hlen. simpl in Hlen.
    destruct (IH (schedule_snoc _ _ _ Hs)) as (Hc & Hseen & Hj).
    rewrite run_snoc, first_reason_snoc, List.length_app. simpl List.length.
    rewrite Nat.add_1_r.
    destruct ev as [i | i e]; cbn [settle count seen joined].
    + rewrite Hc, Hj. split; [reflexivity |].
      destruct (first_reason evs) as [e'|]; [split; [discriminate | reflexivity] |].
      rewrite (Hseen eq_refl). split; [reflexivity |].
      destruct (Nat.eqb_spec (List.length evs) total); [lia | reflexivity].
    + rewrite Hc, Hj. split; [reflexivity |].
      destruct (first_reason evs) as [e'|]; [split; [discriminate | reflexivity] |].
      split; [discriminate |].
      destruct (Nat.eqb_spec (List.length evs) total); [lia | reflexivity].
Qed.

(** Progress after the last settlement of a batch of [total] is 100. *)
Lemma percent_complete (total : nat) : (0 < total)%nat -> (percent total total == 100)%Q.
Proof.
  intros H. unfold percent.
  rewrite Nat2Z.inj_mul, inject_Z_mult, Qmult_comm.
  rewrite Qdiv_mult_l; [reflexivity |].
  intros E. unfold Qeq in E. simpl in E. lia.
Qed.

Lemma reported_latest (total : nat) (evs : list settlement) (ev : settlement) :
  List.hd (inject_Z 0) (reported (run total (evs ++ ev :: nil)%list)) =
  percent (S (count (run total evs))) total.
Proof. rewrite run_snoc. destruct ev; reflexivity. Qed.

Lemma count_counts_every_settlement (total : nat) (evs : list settlement) :
  count (run total evs) = List.length evs.
Proof.
  induction evs as [|ev evs IH] using rev_ind; [reflexivity |].
  rewrite run_snoc, List.length_app, Nat.add_1_r.
  destruct ev; cbn [settle count]; now rewrite IH.
Qed.

(** The reports of a batch, in the order in which they were made. *)
Lemma reports_in_order (total : nat) (evs : list settlement) :
  List.rev (reported (run total evs)) =
  (inject_Z 0 :: List.map (fun c => percent c total) (List.seq 1 (List.length evs)))%list.
Proof.
  induction evs as [|ev evs IH] using rev_ind; [reflexivity |].
  rewrite run_snoc, List.length_app, Nat.add_1_r.
  rewrite List.seq_S, List.map_app. cbn [List.map Nat.add].
  assert (reported (settle total (run total evs) ev) =
          (percent (S (List.length evs)) total :: reported (run total evs))%list) as ->.
  { destruct ev; cbn [settle reported]; now rewrite count_counts_every_settlement. }
  cbn [List.rev]. rewrite IH. reflexivity.
Qed.

(** C1, as the code has it.  Every settlement of a batch, fulfilment or
    rejection, is counted and reported as progress, before and after a
    rejection; the promise that [embedImages] awaits is rejected by the
    first rejection, however many promises of the batch have not settled
    yet, and fulfilled only when all of them are; and a rejection of
    [embedImages] ends [doCopy] with the failure notice, nothing on the
    clipboard and the flag released. *)
Theorem allWithProgress_rejects_on_first_rejection (total : nat) (evs : list settlement) :
  schedule total evs ->
  count (run total evs) = List.length evs /\
  List.rev (reported (run total evs)) =
    (inject_Z 0 :: List.map (fun c => percent c total) (List.seq 1 (List.length evs)))%list /\
  joined (run total evs) =
    match first_reason evs with
    | Some e => Rejected e
    | None => if Nat.eqb (List.length evs) total then Fulfilled tt else Pending
    end /\
  (forall W B H o fuel t a g element e,
      Settings.disableImageEmbedding o = false ->
      snd (Session.renderMarkdown H o fuel (Session.markdown a) (Session.path a)
             (Session.doCopy_enter t g)) = Fulfilled element ->
      Images.embedImages W o (Images.cleanup o element) = Rejected e ->
      exists g' r,
        Session.doCopy W B H o fuel t a g = Some (g', r) /\
        Session.copyIsRunning g' = false /\
        Session.notice r = "copy failed: " ++ message_of e /\
        Session.clipboard r = None).
Proof.
  intros Hs. destruct (run_invariant total evs Hs) as (Hc & _ & Hj).
  split; [exact Hc | split; [apply reports_in_order | split; [exact Hj |]]].
  intros W B H o fuel t a g element e Hd Hr He. unfold Session.doCopy.
  rewrite (SessionFacts.doCopy_try_embedImages_rejected W B H o fuel a _ element e Hd Hr He).
  cbn [fst snd]. rewrite SessionFacts.doCopy_leave_rejected.
  eexists _, _. split; [reflexivity |]. repeat split.
Qed.

(** A batch of two: the first is rejected, the second is fulfilled
    afterwards and still counted and reported; the copy of the note
    fails. *)
Lemma allWithProgress_rejects_on_first_rejection_witness :
  count (run 2 (Rejects 0 (Error "File not found: missing.png") :: Fulfils 1 :: nil)) = 2%nat /\
  List.rev (reported (run 2 (Rejects 0 (Error "File not found: missing.png") ::
                             Fulfils 1 :: nil)))
  = (inject_Z 0 :: percent 1 2 :: percent 2 2 :: nil)%list /\
  joined (run 2 (Rejects 0 (Error "File not found: missing.png") :: Fulfils 1 :: nil))
  = Rejected (Error "File not found: missing.png") /\
  exists g' r,
    Session.doCopy Demo.world Demo.browser Demo.galleryHost Settings.DEFAULT_SETTINGS 10 1000
      (Session.MakeArgs "![[missing.png]]" "notes/a.md" "a.md" true) (Session.initial 5)
    = Some (g', r) /\
    Session.copyIsRunning g' = false /\
    Session.notice r = "copy failed: " ++ message_of (Error "File not found: missing.png") /\
    Session.clipboard r = None.
Proof.
  assert (schedule 2 (Rejects 0 (Error "File not found: missing.png") :: Fulfils 1 :: nil))
    as Hs.
  { split.
    - repeat constructor; simpl; intuition lia.
    - repeat constructor. }
  destruct (allWithProgress_rejects_on_first_rejection 2 _ Hs) as (Hc & Hp & Hj & Hd).
  split; [exact Hc | split; [exact Hp | split; [exact Hj |]]].
  apply (Hd Demo.world Demo.browser Demo.galleryHost Settings.DEFAULT_SETTINGS 10%nat 1000
            (Session.MakeArgs "![[missing.png]]" "notes/a.md" "a.md" true)
            (Session.initial 5) Demo.gallery (Error "File not found: missing.png"));
    reflexivity.
Defined.

(** One image of the vault is missing, and its promise is the first of
    the batch to settle: the join is rejected while the other promise has
    not settled, [embedImages] is rejected and the copy of the whole note
    fails. *)
Lemma rejection_aborts_the_copy :
  settlements_of (Images.pushedIn Demo.world Settings.DEFAULT_SETTINGS Demo.gallery)
  = Rejects 0 (Error "File not found: missing.png") :: Fulfils 1 :: nil /\
  joined (run 2 (Rejects 0 (Error "File not found: missing.png") :: nil))
  = Rejected (Error "File not found: missing.png") /\
  unsettled 2 (Rejects 0 (Error "File not found: missing.png") :: nil) = 1%nat /\
  Images.embedImages Demo.world Settings.DEFAULT_SETTINGS Demo.gallery
  = Rejected (Error "File not found: missing.png") /\
  option_map
    (fun x => (Session.copyIsRunning (fst x), Session.notice (snd x),
               Session.clipboard (snd x)))
    (Session.doCopy Demo.world Demo.browser Demo.galleryHost Settings.DEFAULT_SETTINGS 10 1000
       (Session.MakeArgs "![[missing.png]]" "notes/a.md" "a.md" true) (Session.initial 5))
  = Some (false, "copy failed: File not found: missing.png", None).
Proof. repeat split; vm_compute; reflexivity. Qed.

End BatchFacts.

(** ** The image resolution engine *)

Module ImagesFacts.
Import JS Async Dom Mime Images StringFacts.

(** Induction on trees, with the property at hand for all children. *)
Lemma node_induction (P : node -> Prop) :
  (forall d, P (TextNode d)) ->
  (forall t a ks, List.Forall P ks -> P (Element t a ks)) ->
  forall n, P n.
Proof.
  intros Htext Helem.
  exact (fix F (n : node) : P n :=
           match n with
           | TextNode d => Htext d
           | Element t a ks =>
               Helem t a ks
                 ((fix G (ks : list node) : List.Forall P ks :=
                     match ks with
                     | nil => @List.Forall_nil node P
                     | k :: ks' => @List.Forall_cons node P k ks' (F k) (G ks')
                     end) ks)
           end).
Qed.

(** *** [imageToDataUri] *)

Lemma settled_stays (url v : string) (evs : list ImageEvent) :
  forall l, fst (fold_left (dispatch url) evs (Fulfilled v, l)) = Fulfilled v.
Proof.
  induction evs as [|ev evs IH]; intros l; [reflexivity |].
  destruct ev as [[|[uri|]]|]; cbn [fold_left dispatch onload onerror resolve fst snd];
    apply IH.
Qed.

(** The promise is settled by the first event whose handler reaches
    [resolve], and later events change nothing. *)
Lemma imageToDataUri_first_settling (url : string) (evs : list ImageEvent) :
  forall st ev,
    fst st = Pending ->
    List.find settling evs = Some ev ->
    fst (fold_left (dispatch url) evs st) =
    Fulfilled (match ev with Load (Drawn (Some uri)) => uri | _ => url end).
Proof.
  induction evs as [|e evs IH]; intros st ev Hst Hfind; [discriminate |].
  cbn [List.find] in Hfind. cbn [fold_left].
  destruct e as [[|[uri|]]|]; cbn [settling] in Hfind.
  - apply IH; assumption.
  - injection Hfind as <-. cbn [dispatch onload]. rewrite Hst. apply settled_stays.
  - injection Hfind as <-. cbn [dispatch onload]. rewrite Hst. apply settled_stays.
  - injection Hfind as <-. cbn [dispatch]. unfold onerror. rewrite Hst. apply settled_stays.
Qed.

(** Without such an event it stays pending. *)
Lemma imageToDataUri_unsettled (url : string) (evs : list ImageEvent) :
  forall st,
    fst st = Pending ->
    List.find settling evs = None ->
    fst (fold_left (dispatch url) evs st) = Pending.
Proof.
  induction evs as [|e evs IH]; intros st Hst Hfind; [exact Hst |].
  cbn [List.find] in Hfind. cbn [fold_left].
  destruct e as [[|[uri|]]|]; cbn [settling] in Hfind; try discriminate.
  apply IH; assumption.
Qed.

(** It is never rejected. *)
Lemma imageToDataUri_not_rejected (W : World) (url : string) (e : JsError) :
  fst (imageToDataUri W url) <> Rejected e.
Proof.
  unfold imageToDataUri, imageToDataUri_events.
  destruct (List.find settling (loadImage W url)) as [ev|] eqn:F.
  - rewrite (imageToDataUri_first_settling url _ (Pending, nil) ev eq_refl F). discriminate.
  - rewrite (imageToDataUri_unsettled url _ (Pending, nil) eq_refl F). discriminate.
Qed.


Lemma setAttribute_same (name v : string) (a : attributes) :
  getAttribute name a = Some v -> setAttribute name v a = a.
Proof.
  induction a as [|[n w] a IH]; simpl; [discriminate |].
  destruct (String.eqb n name).
  - now intros [= ->].
  - intros H. now rewrite IH.
Qed.


(** *** The join *)

Ltac moments :=
  repeat match goal with m : moment |- _ => destruct m end;
  cbn [before] in *; rewrite ?Nat.ltb_lt, ?Nat.ltb_ge in *;
  first [reflexivity | discriminate | lia].

Lemma before_irrefl (a : moment) : before a a = false.
Proof. moments. Qed.

Lemma not_before_trans (a b c : moment) :
  before b a = false -> before c b = false -> before c a = false.
Proof. intros H1 H2. moments. Qed.

Lemma before_not_after (a b : moment) : before a b = true -> before b a = false.
Proof. intros H. moments. Qed.

Lemma first_rejection_none {A : Type} (ps : list (timed A)) :
  first_rejection ps = None ->
  List.Forall (fun p => forall e, outcome p <> Rejected e) ps.
Proof.
  induction ps as [|p ps IH]; intros H; [constructor |].
  cbn [first_rejection] in H.
  destruct (outcome p) as [v | e |] eqn:Ep.
  - constructor; [rewrite Ep; discriminate | now apply IH].
  - destruct (first_rejection ps) as [[m' e']|]; [| discriminate].
    destruct (before m' (settles p)); discriminate.
  - constructor; [rewrite Ep; discriminate | now apply IH].
Qed.

(** The reason of the first rejection is the reason of one of the
    promises, rejected at that moment, and none is rejected earlier. *)
Lemma first_rejection_some {A : Type} (ps : list (timed A)) (m : moment) (e : JsError) :
  first_rejection ps = Some (m, e) ->
  (exists p, List.In p ps /\ outcome p = Rejected e /\ settles p = m) /\
  (forall q e', List.In q ps -> outcome q = Rejected e' -> before (settles q) m = false).
Proof.
  revert m e. induction ps as [|p ps IH]; intros m e H; [discriminate |].
  cbn [first_rejection] in H.
  destruct (outcome p) as [v | e0 |] eqn:Ep.
  - destruct (IH m e H) as [(x & Hin & Hx) Hmin]. split.
    + exists x. split; [now right | exact Hx].
    + intros q e' [<- | Hq] Hq'; [congruence | now apply (Hmin q e')].
  - destruct (first_rejection ps) as [[m' e']|] eqn:F.
    + destruct (IH m' e' eq_refl) as [(x & Hin & Hx) Hmin].
      destruct (before m' (settles p)) eqn:Eb; injection H as <- <-.
      * split; [exists x; split; [now right | exact Hx] |].
        intros q e'' [<- | Hq] Hq'; [now apply before_not_after | now apply (Hmin q e'')].
      * split; [exists p; split; [now left | now split] |].
        intros q e'' [<- | Hq] Hq'; [apply before_irrefl |].
        exact (not_before_trans _ _ _ Eb (Hmin q e'' Hq Hq')).
    + injection H as <- <-. split; [exists p; split; [now left | now split] |].
      intros q e'' [<- | Hq] Hq'; [apply before_irrefl |].
      pose proof (first_rejection_none ps F) as Hn. rewrite List.Forall_forall in Hn.
      now destruct (Hn q Hq e'').
  - destruct (IH m e H) as [(x & Hin & Hx) Hmin]. split.
    + exists x. split; [now right | exact Hx].
    + intros q e' [<- | Hq] Hq'; [congruence | now apply (Hmin q e')].
Qed.


Lemma all_fulfilled {A : Type} (ps : list (timed A)) (l : list A) :
  all ps = Fulfilled l ->
  List.Forall (fun p => exists v, outcome p = Fulfilled v) ps.
Proof.
  unfold all. destruct (first_rejection ps) as [[m e]|]; [discriminate |].
  revert l. induction ps as [|p ps IH]; intros l H; [constructor |].
  cbn [values] in H.
  destruct (outcome p) as [v | e |] eqn:Ep; try discriminate.
  destruct (values ps) as [l'|] eqn:V; [| discriminate].
  constructor; [now exists v | now apply (IH l')].
Qed.

(** *** What becomes of the element *)



(** The attribute of that element is the encoded URL afterwards. *)
Example embedImages_writes_the_resolved_url :
  embedImages Demo.world Settings.DEFAULT_SETTINGS
    (Element "DIV" nil
       (Element "IMG" (("src", "a b.png") :: ("alt", "photo") :: nil) nil :: nil))
  = Fulfilled
      (Element "DIV" nil
         (Element "IMG" (("src", "https://example.org/a%20b.png") :: ("alt", "photo") :: nil)
            nil :: nil)).
Proof. vm_compute. reflexivity. Qed.


(** *** Running [embedImages] again *)

(** A note with an SVG file of the vault, two external images and an
    image that is a data URI already: the second run changes nothing. *)
Example embedImages_twice_on_a_note :
  embedImages Demo.world Settings.DEFAULT_SETTINGS
    (Element "DIV" nil
       (Element "IMG" (("src", "app://local/home/me/vault/pic.svg?1700000000") :: nil) nil ::
        Element "IMG" (("src", "https://example.org/ok.png") :: nil) nil ::
        Element "IMG" (("src", "https://example.org/tainted.png") :: nil) nil ::
        Element "IMG" (("src", Demo.png) :: nil) nil :: nil))
  = Fulfilled
      (Element "DIV" nil
         (Element "IMG" (("src", "data:image/svg+xml;base64,PHN2Zy8+") :: nil) nil ::
          Element "IMG" (("src", Demo.png) :: nil) nil ::
          Element "IMG" (("src", "https://example.org/tainted.png") :: nil) nil ::
          Element "IMG" (("src", Demo.png) :: nil) nil :: nil)) /\
  embedImages Demo.world Settings.DEFAULT_SETTINGS
    (Element "DIV" nil
       (Element "IMG" (("src", "data:image/svg+xml;base64,PHN2Zy8+") :: nil) nil ::
        Element "IMG" (("src", Demo.png) :: nil) nil ::
        Element "IMG" (("src", "https://example.org/tainted.png") :: nil) nil ::
        Element "IMG" (("src", Demo.png) :: nil) nil :: nil))
  = Fulfilled
      (Element "DIV" nil
         (Element "IMG" (("src", "data:image/svg+xml;base64,PHN2Zy8+") :: nil) nil ::
          Element "IMG" (("src", Demo.png) :: nil) nil ::
          Element "IMG" (("src", "https://example.org/tainted.png") :: nil) nil ::
          Element "IMG" (("src", Demo.png) :: nil) nil :: nil)).
Proof. split; vm_compute; reflexivity. Qed.

(** The two tests for SVG disagree on a mime type that goes on after
    [image/svg+xml]: [isSvg] compares for equality, [embedImages] tests a
    prefix of the data URI. *)
Lemma svg_tests_disagree (W : World) (o : Settings.t) (mimeType rest : string) :
  Settings.convertSvgToBitmap o = true ->
  startsWith mimeType "image/svg+xml" = true ->
  mimeType <> "image/svg+xml" ->
  isSvg mimeType = false /\
  embedImage W o ("data:" ++ mimeType ++ rest) =
  Some (replaceImageSource W o ("data:" ++ mimeType ++ rest)).
Proof.
  intros Hconv Hpre Hne. split.
  - unfold isSvg. now destruct (String.eqb_spec mimeType "image/svg+xml").
  - unfold embedImage. change ("data:" ++ mimeType ++ rest)
      with (String "d" ("ata:" ++ mimeType ++ rest)).
    assert (startsWith (String "d" ("ata:" ++ mimeType ++ rest)) "data:image/svg+xml" = true)
      as ->; [| now rewrite Hconv].
    change (isPrefix "image/svg+xml" (mimeType ++ rest) = true).
    unfold startsWith in Hpre. apply TemplateFacts.isPrefix_split in Hpre.
    rewrite Hpre, append_assoc. apply TemplateFacts.isPrefix_append.
Qed.

(** C6, on the code.  With SVG conversion on (the default), a file of the
    vault named [a.svg+xmlx] and a browser that decodes its data URI: the
    first run embeds the file as [data:image/svg+xmlx;..] without
    rasterizing it, and the second run takes that for an SVG data URI and
    turns it into a PNG.  Running the pass twice is not running it once. *)
Theorem second_run_changes_svg_like_uri :
  isSvg (guessMimeType "a.svg+xmlx") = false /\
  startsWith "data:image/svg+xmlx;base64,iVBORw0KGgo=" "data:image/svg+xml" = true /\
  embedImages Demo.sniffing Settings.DEFAULT_SETTINGS
    (Element "DIV" nil
       (Element "IMG" (("src", "app://local/home/me/vault/a.svg+xmlx") :: nil) nil :: nil))
  = Fulfilled
      (Element "DIV" nil
         (Element "IMG" (("src", "data:image/svg+xmlx;base64,iVBORw0KGgo=") :: nil) nil :: nil)) /\
  embedImages Demo.sniffing Settings.DEFAULT_SETTINGS
    (Element "DIV" nil
       (Element "IMG" (("src", "data:image/svg+xmlx;base64,iVBORw0KGgo=") :: nil) nil :: nil))
  = Fulfilled
      (Element "DIV" nil
         (Element "IMG" (("src", "data:image/png;base64,iVBORw0KGgo=") :: nil) nil :: nil)).
Proof. repeat split; vm_compute; reflexivity. Qed.

End ImagesFacts.

(** ** The join in the order of time *)

Module JoinFacts.
Import Async Batch BatchFacts ImagesFacts.

Lemma earliest_settled {A : Type} (ps : list (timed A)) :
  forall i, earliest (settled i ps) = first_rejection ps.
Proof.
  induction ps as [|p ps IH]; intros i; [reflexivity |].
  cbn [settled first_rejection].
  destruct (outcome p) as [v | e |]; cbn [earliest]; rewrite ?IH; reflexivity.
Qed.

Lemma earliest_moment (l : list (moment * settlement)) (m : moment) (e : JsError) :
  earliest l = Some (m, e) -> exists x, List.In x l /\ fst x = m.
Proof.
  revert m e. induction l as [|[mx [i | i ex]] l IH]; intros m e H; cbn [earliest] in H.
  - discriminate.
  - destruct (IH m e H) as (x & Hx & Hm). exists x. split; [now right | exact Hm].
  - destruct (earliest l) as [[m' e']|].
    + destruct (before m' mx).
      * injection H as <- <-. destruct (IH m' e' eq_refl) as (x & Hx & Hm).
        exists x. split; [now right | exact Hm].
      * injection H as <- <-. exists (mx, Rejects i ex). split; [now left | reflexivity].
    + injection H as <- <-. exists (mx, Rejects i ex). split; [now left | reflexivity].
Qed.

(** In a list that is in the order of time, the first rejection is the
    first one in the list. *)
Lemma earliest_inOrder (l : list (moment * settlement)) :
  inOrder l -> option_map snd (earliest l) = first_reason (List.map snd l).
Proof.
  induction 1 as [|[mx [i | i ex]] l Hl IH Hx]; [reflexivity | exact IH |].
  cbn [earliest List.map snd first_reason].
  destruct (earliest l) as [[m' e']|] eqn:E; [| reflexivity].
  destruct (earliest_moment l m' e' E) as (y & Hy & <-).
  rewrite List.Forall_forall in Hx. pose proof (Hx y Hy) as Hb. cbn [fst] in Hb.
  now rewrite Hb.
Qed.

Lemma earliest_swap (x y : moment * settlement) (l : list (moment * settlement)) :
  before (fst y) (fst x) = true ->
  earliest (y :: x :: l) = earliest (x :: y :: l).
Proof.
  destruct x as [mx [i | i ex]], y as [my [j | j ey]]; cbn [fst earliest]; intros H;
    try reflexivity.
  destruct (earliest l) as [[m e]|].
  - destruct (before m mx) eqn:E1, (before m my) eqn:E2; cbn [fst];
      rewrite ?E1, ?E2, ?H, ?(before_not_after _ _ H);
      first [reflexivity | exfalso; clear - H E1 E2; moments].
  - now rewrite H, (before_not_after _ _ H).
Qed.

Lemma earliest_cons (x : moment * settlement) (l l' : list (moment * settlement)) :
  earliest l = earliest l' -> earliest (x :: l) = earliest (x :: l').
Proof. destruct x as [m [i | i e]]; cbn [earliest]; now intros ->. Qed.

Lemma earliest_insert (x : moment * settlement) (l : list (moment * settlement)) :
  earliest (insert x l) = earliest (x :: l).
Proof.
  induction l as [|y l IH]; [reflexivity |].
  cbn [insert]. destruct (before (fst y) (fst x)) eqn:E; [| reflexivity].
  rewrite (earliest_cons y _ _ IH). now apply earliest_swap.
Qed.

Lemma earliest_sorted (l : list (moment * settlement)) :
  earliest (fold_right insert nil l) = earliest l.
Proof.
  induction l as [|x l IH]; [reflexivity |].
  cbn [fold_right]. rewrite earliest_insert. now apply earliest_cons.
Qed.

Lemma insert_Permutation (x : moment * settlement) (l : list (moment * settlement)) :
  Permutation (insert x l) (x :: l).
Proof.
  induction l as [|y l IH]; [reflexivity |].
  cbn [insert]. destruct (before (fst y) (fst x)); [| reflexivity].
  rewrite IH. apply perm_swap.
Qed.

Lemma sorted_Permutation (l : list (moment * settlement)) :
  Permutation (fold_right insert nil l) l.
Proof.
  induction l as [|x l IH]; [reflexivity |].
  cbn [fold_right]. rewrite insert_Permutation. now constructor.
Qed.

Lemma insert_inOrder (x : moment * settlement) (l : list (moment * settlement)) :
  inOrder l -> inOrder (insert x l).
Proof.
  induction 1 as [|y l Hl IH Hy]; [repeat constructor |].
  cbn [insert]. destruct (before (fst y) (fst x)) eqn:E.
  - constructor; [exact IH |].
    apply (Permutation_Forall (x := x :: l)); [symmetry; apply insert_Permutation |].
    constructor; [now apply before_not_after | exact Hy].
  - constructor; [now constructor |].
    constructor; [exact E |].
    eapply List.Forall_impl; [| exact Hy].
    intros z Hz. cbv beta in Hz. exact (not_before_trans _ _ _ E Hz).
Qed.

Lemma sorted_inOrder (l : list (moment * settlement)) : inOrder (fold_right insert nil l).
Proof.
  induction l as [|x l IH]; [constructor |]. now apply insert_inOrder.
Qed.

Lemma settled_bounds {A : Type} (ps : list (timed A)) :
  forall i,
    List.Forall (fun x => (i <= index_of (snd x) < i + List.length ps)%nat) (settled i ps).
Proof.
  induction ps as [|p ps IH]; intros i; [constructor |].
  assert (List.Forall (fun x => (i <= index_of (snd x) < i + S (List.length ps))%nat)
            (settled (S i) ps)) as Hrest.
  { eapply List.Forall_impl; [| exact (IH (S i))].
    intros ev Hev. cbv beta in Hev. lia. }
  cbn [settled List.length]. destruct (outcome p) as [v | e |].
  - constructor; [cbn [snd index_of]; lia | exact Hrest].
  - constructor; [cbn [snd index_of]; lia | exact Hrest].
  - exact Hrest.
Qed.

Lemma settled_NoDup {A : Type} (ps : list (timed A)) :
  forall i, List.NoDup (List.map (fun x => index_of (snd x)) (settled i ps)).
Proof.
  induction ps as [|p ps IH]; intros i; [constructor |].
  assert (~ List.In i (List.map (fun x => index_of (snd x)) (settled (S i) ps))) as Hfresh.
  { intros Hin. apply List.in_map_iff in Hin as (ev & Hi & Hev).
    pose proof (settled_bounds ps (S i)) as Hb.
    rewrite List.Forall_forall in Hb. specialize (Hb ev Hev). cbv beta in Hb. lia. }
  cbn [settled]. destruct (outcome p) as [v | e |]; cbn [List.map snd index_of].
  - constructor; [exact Hfresh | apply IH].
  - constructor; [exact Hfresh | apply IH].
  - apply IH.
Qed.

(** The settlements of a batch in the order of time are a schedule of
    it. *)
Lemma settlements_schedule {A : Type} (ps : list (timed A)) :
  schedule (List.length ps) (settlements_of ps).
Proof.
  unfold settlements_of, schedule. rewrite List.map_map.
  pose proof (sorted_Permutation (settled 0 ps)) as HP. split.
  - apply (Permutation_NoDup (l := List.map (fun x => index_of (snd x)) (settled 0 ps))).
    + symmetry. now apply Permutation_map.
    + apply settled_NoDup.
  - apply List.Forall_map.
    apply (Permutation_Forall (x := settled 0 ps)); [now symmetry |].
    eapply List.Forall_impl; [| exact (settled_bounds ps 0)].
    intros x Hx. cbv beta in Hx. lia.
Qed.

Lemma length_settled {A : Type} (ps : list (timed A)) :
  forall i,
    (List.length (settled i ps) <= List.length ps)%nat /\
    (first_rejection ps = None ->
     match values ps with
     | Some _ => List.length (settled i ps) = List.length ps
     | None => (List.length (settled i ps) < List.length ps)%nat
     end).
Proof.
  induction ps as [|p ps IH]; intros i; [split; [simpl; lia | reflexivity] |].
  destruct (IH (S i)) as [Hle Hv].
  cbn [settled first_rejection values List.length].
  destruct (outcome p) as [v | e |]; cbn [List.length]; (split; [lia |]); intros Hr.
  - specialize (Hv Hr). destruct (values ps); lia.
  - destruct (first_rejection ps) as [[m' e']|]; [| discriminate].
    destruct (before m' (settles p)); discriminate.
  - lia.
Qed.

(** [Promise.all] of the batch is the join [allWithProgress] returns,
    with the promises settling in the order of time. *)
Lemma all_is_the_join {A : Type} (ps : list (timed A)) :
  joined (run (List.length ps) (settlements_of ps)) =
  match all ps with
  | Fulfilled _ => Fulfilled tt
  | Rejected e => Rejected e
  | Pending => Pending
  end.
Proof.
  destruct (run_invariant _ _ (settlements_schedule ps)) as (_ & _ & ->).
  unfold settlements_of.
  rewrite <- (earliest_inOrder _ (sorted_inOrder _)), earliest_sorted, earliest_settled.
  unfold all.
  destruct (first_rejection ps) as [[m e]|] eqn:Hr; [reflexivity |]. cbn [option_map].
  rewrite List.length_map, (Permutation_length (sorted_Permutation (settled 0 ps))).
  destruct (length_settled ps 0) as [_ Hv]. specialize (Hv Hr).
  destruct (values ps).
  - rewrite Hv, Nat.eqb_refl. reflexivity.
  - destruct (Nat.eqb_spec (List.length (settled 0 ps)) (List.length ps));
      [lia | reflexivity].
Qed.

End JoinFacts.

(** ** The completion detector *)

Module DetectorFacts.
Import Session.

(** X1.  When [untilRendered] returns, either [ppLastBlockDate] holds 0, or
    no block is being processed and at least the settling delay has passed
    between the end of the last block and the evaluation of the loop
    condition that let it return; and it has waited as many delays as polls
    went by. *)
Theorem untilRendered_returns_settled (fuel : nat) (world : nat -> Tick) (n : nat)
    (g g' : Globals) (m : nat) :
  untilRendered fuel world n g = Some (g', m) ->
  (n <= m)%nat /\
  (ppLastBlockDate g' = 0 \/
   (ppIsProcessing g' = false /\
    optionRenderSettlingDelay <= now (world m) - ppLastBlockDate g')).
Proof.
  revert n g. induction fuel as [|fuel IH]; intros n g H; [discriminate |].
  cbn [untilRendered] in H.
  destruct (ppIsProcessing g) eqn:Ep; cbn [orb] in H.
  - destruct (ppLastBlockDate g =? 0) eqn:E0.
    + injection H as <- <-. apply Z.eqb_eq in E0. split; [lia | now left].
    + apply IH in H as [Hle H]. split; [lia | exact H].
  - destruct (now (world n) - ppLastBlockDate g <? optionRenderSettlingDelay) eqn:Ew.
    + destruct (ppLastBlockDate g =? 0) eqn:E0.
      * injection H as <- <-. apply Z.eqb_eq in E0. split; [lia | now left].
      * apply IH in H as [Hle H]. split; [lia | exact H].
    + injection H as <- <-. apply Z.ltb_ge in Ew. split; [lia | right; now split].
Qed.

(** A copy entered at 1000; one block starts and ends at 1010 during the
    first delay; the clock advances by 20 ms per poll. *)
Lemma untilRendered_returns_settled_witness :
  (0 <= 6)%nat /\
  (ppLastBlockDate (MakeGlobals true false 1010) = 0 \/
   (ppIsProcessing (MakeGlobals true false 1010) = false /\
    optionRenderSettlingDelay <= 1000 + 20 * Z.of_nat 6 - 1010)).
Proof.
  exact (untilRendered_returns_settled 50
           (fun k => {| now := 1000 + 20 * Z.of_nat k;
                        during := match k with
                                  | O => BlockStart :: BlockEnd 1010 :: nil
                                  | _ => nil
                                  end |})
           0 (doCopy_enter 1000 (initial 5)) (MakeGlobals true false 1010) 6 eq_refl).
Defined.

(** X2.  Once no block is being processed and the renderer stays quiet,
    [untilRendered] returns, with the variables unchanged, at the latest at
    the poll at which the settling delay has passed. *)
Theorem untilRendered_returns_when_quiet (world : nat -> Tick) (g : Globals)
    (m fuel n : nat) :
  ppIsProcessing g = false ->
  (forall k, (n <= k)%nat -> during (world k) = nil) ->
  optionRenderSettlingDelay <= now (world (n + m)%nat) - ppLastBlockDate g ->
  exists k, (k <= m)%nat /\ untilRendered (S m + fuel) world n g = Some (g, (n + k)%nat).
Proof.
  intros Hidle. revert n. induction m as [|m IH]; intros n Hquiet Hlate.
  - exists 0%nat. split; [lia |]. rewrite Nat.add_0_r in *.
    cbn [Nat.add untilRendered]. rewrite Hidle. cbn [orb].
    destruct (now (world n) - ppLastBlockDate g <? optionRenderSettlingDelay) eqn:Ew;
      [apply Z.ltb_lt in Ew; lia | reflexivity].
  - change (S (S m) + fuel)%nat with (S (S m + fuel)). cbn [untilRendered].
    rewrite Hidle. cbn [orb].
    destruct (now (world n) - ppLastBlockDate g <? optionRenderSettlingDelay);
      [| exists 0%nat; split; [lia | now rewrite Nat.add_0_r]].
    destruct (ppLastBlockDate g =? 0);
      [exists 0%nat; split; [lia | now rewrite Nat.add_0_r] |].
    rewrite (Hquiet n) by lia. cbn [fold_left].
    destruct (IH (S n)) as (k & Hk & E).
    + intros j Hj. apply Hquiet. lia.
    + now rewrite Nat.add_succ_comm.
    + exists (S k). split; [lia |]. rewrite E. f_equal. f_equal. lia.
Qed.

(** The last block ended at 1010; polls at 1020, 1040, ... *)
Lemma untilRendered_returns_when_quiet_witness :
  exists k, (k <= 5)%nat /\
    untilRendered (S 5 + 10) (fun k => {| now := 1000 + 20 * Z.of_nat k; during := nil |}) 1
      (MakeGlobals true false 1010)
    = Some (MakeGlobals true false 1010, (1 + k)%nat).
Proof.
  apply (untilRendered_returns_when_quiet
           (fun k => {| now := 1000 + 20 * Z.of_nat k; during := nil |})
           (MakeGlobals true false 1010) 5 10 1).
  - reflexivity.
  - reflexivity.
  - vm_compute. discriminate.
Defined.

End DetectorFacts.

(** ** The command and the flag *)

Module CommandsFacts.
Import Async Session Commands.

Lemma copyFromView_enters (t : Z) (sys : System) (a : option CopyArgs) :
  inflight sys = nil ->
  (copyIsRunning (globals (enter t a sys)) = true /\
   exists x, inflight (enter t a sys) = x :: nil) \/
  enter t a sys = sys.
Proof.
  intros Hnil. destruct a as [a|]; [left | now right].
  cbn [enter globals inflight doCopy_enter copyIsRunning]. rewrite Hnil.
  split; [reflexivity | now exists a].
Qed.

Lemma step_exclusive (sys : System) (s : Step) :
  exclusive sys -> exclusive (step sys s).
Proof.
  intros [[Hflag Hnil] | [Hflag [a Hone]]]; destruct s as [t v checking |];
    cbn [step].
  - unfold request, checkCallback. rewrite Hflag.
    destruct v as [v|]; [| left; now split].
    destruct checking; [left; now split |].
    destruct (editor v) as [ed|]; [| left; now split].
    cbn [snd].
    destruct (copyFromView_enters t sys (copyFromView v (somethingSelected ed)) Hnil)
      as [[H1 H2] | ->]; [right; now split | left; now split].
  - rewrite Hnil. left; now split.
  - unfold request, checkCallback. rewrite Hflag. right. split; [exact Hflag | now exists a].
  - rewrite Hone. left. cbn [leave globals inflight copyIsRunning]. rewrite Hone.
    split; reflexivity.
Qed.

(** X3.  As long as copies are started from the command only, at most one
    call of [doCopy] is in flight at any time, and [copyIsRunning] is set
    exactly while there is one. *)
Theorem command_copies_are_exclusive (t0 : Z) (steps : list Step) :
  (List.length (inflight (after t0 steps)) <= 1)%nat /\
  (copyIsRunning (globals (after t0 steps)) = true <-> inflight (after t0 steps) <> nil).
Proof.
  assert (exclusive (after t0 steps)) as H.
  { unfold after.
    assert (exclusive {| globals := initial t0; inflight := nil |}) as H0
      by (left; now split).
    revert H0. generalize {| globals := initial t0; inflight := nil |}.
    induction steps as [|s steps IH]; intros sys H0; [exact H0 |].
    cbn [fold_left]. apply IH. now apply step_exclusive. }
  destruct H as [[Hflag Hnil] | [Hflag [a Hone]]].
  - rewrite Hflag, Hnil. split; [simpl; lia |]. split; intros; congruence.
  - rewrite Hflag, Hone. split; [simpl; lia |]. split; intros; congruence.
Qed.



End CommandsFacts.

(** ** Progress of a batch *)

Module ProgressFacts.
Import Async Batch BatchFacts.

(** X5.  When every promise of a batch has settled, whether fulfilled or
    rejected, all of them have been counted, the last progress reported is
    100, and the promise [allWithProgress] returned has settled. *)
Theorem progress_completes (total : nat) (evs : list settlement) :
  schedule total evs ->
  List.length evs = total ->
  (0 < total)%nat ->
  count (run total evs) = total /\
  (List.hd (inject_Z 0) (reported (run total evs)) == 100)%Q /\
  joined (run total evs) <> Pending.
Proof.
  intros Hs Hlen Hpos.
  destruct (run_invariant total evs Hs) as (Hc & _ & Hj).
  split; [now rewrite Hc | split].
  - destruct evs as [|ev0 evs0] using rev_ind; [simpl in Hlen; lia |].
    rewrite reported_latest.
    destruct (run_invariant total evs0 (schedule_snoc _ _ _ Hs)) as (Hc0 & _ & _).
    rewrite Hc0. rewrite List.length_app in Hlen. simpl in Hlen.
    replace (S (List.length evs0)) with total by lia.
    now apply percent_complete.
  - rewrite Hj. destruct (first_reason evs); [discriminate |].
    rewrite Hlen, Nat.eqb_refl. discriminate.
Qed.

Lemma progress_completes_witness :
  count (run 3 (Fulfils 2 :: Rejects 0 (Error "File not found: a.png") :: Fulfils 1 :: nil))
  = 3%nat /\
  (List.hd (inject_Z 0)
     (reported (run 3 (Fulfils 2 :: Rejects 0 (Error "File not found: a.png") ::
                       Fulfils 1 :: nil))) == 100)%Q /\
  joined (run 3 (Fulfils 2 :: Rejects 0 (Error "File not found: a.png") :: Fulfils 1 :: nil))
  <> Pending.
Proof.
  apply (progress_completes 3
           (Fulfils 2 :: Rejects 0 (Error "File not found: a.png") :: Fulfils 1 :: nil)).
  - split.
    + repeat constructor; simpl; intuition lia.
    + repeat constructor.
  - reflexivity.
  - lia.
Defined.

End ProgressFacts.

(** ** Texts the regular expressions cannot match *)

Module RegexFacts.
Import JS Regex RegexLoop.

Lemma advance_lacks (c : ascii) (s : mstate) (d : ascii) (s' : mstate) :
  has_char c (rest s) = false ->
  advance s = Some (d, s') ->
  Ascii.eqb d c = false /\ has_char c (rest s') = false.
Proof.
  unfold advance. destruct (rest s) as [|x r]; [discriminate |].
  cbn [has_char]. intros H [= <- <-]. now apply orb_false_iff in H.
Qed.

Lemma run_Star (g : bool) (a : re) (s : mstate) (k : mstate -> option mstate) :
  run (Star g a) s k = starLoop g a k (S (String.length (rest s))) s.
Proof. reflexivity. Qed.

(** A regular expression only hands suffixes of its input on: if what
    follows fails on every text without [c], so does the whole. *)
Lemma run_fails (c : ascii) (r : re) :
  forall s k,
    (forall s', has_char c (rest s') = false -> k s' = None) ->
    has_char c (rest s) = false ->
    run r s k = None.
Proof.
  induction r as [| p | | | | a IHa b IHb | a IHa b IHb | g a IHa | n a IHa];
    intros s k Hk Hs.
  - now apply Hk.
  - cbn [run]. destruct (advance s) as [[d s']|] eqn:E; [| reflexivity].
    destruct (advance_lacks c s d s' Hs E) as [_ Hs'].
    destruct (p d); [now apply Hk | reflexivity].
  - cbn [run]. destruct (at_bol s); [now apply Hk | reflexivity].
  - cbn [run]. destruct (at_eol s); [now apply Hk | reflexivity].
  - cbn [run]. pose proof (Hk s Hs) as H0. destruct (rest s); [exact H0 | reflexivity].
  - cbn [run]. apply IHa; [| exact Hs]. intros s1 H1. now apply IHb.
  - cbn [run]. rewrite IHa by assumption. now apply IHb.
  - rewrite run_Star. generalize (S (String.length (rest s))). intros fuel.
    revert s Hs. induction fuel as [|fuel IHf]; intros s Hs; [now apply Hk |].
    cbn [RegexLoop.starLoop].
    assert (run a s (fun s1 => if Nat.ltb (pos s) (pos s1)
                               then RegexLoop.starLoop g a k fuel s1 else None) = None)
      as Hmore.
    { apply IHa; [| exact Hs]. intros s1 H1.
      destruct (Nat.ltb (pos s) (pos s1)); [now apply IHf | reflexivity]. }
    destruct g.
    + rewrite Hmore. now apply Hk.
    + rewrite (Hk s Hs). exact Hmore.
  - cbn [run]. apply IHa; [| exact Hs]. intros s1 H1. now apply Hk.
Qed.

Lemma Needs_Lit (c : ascii) : Needs c (Lit c).
Proof.
  intros s k Hs. unfold Lit. cbn [run].
  destruct (advance s) as [[d s']|] eqn:E; [| reflexivity].
  destruct (advance_lacks c s d s' Hs E) as [Hd _].
  now rewrite Ascii.eqb_sym, Hd.
Qed.

Lemma Needs_Seq_l (c : ascii) (a b : re) : Needs c a -> Needs c (Seq a b).
Proof. intros Ha s k Hs. cbn [run]. now apply Ha. Qed.

Lemma Needs_Seq_r (c : ascii) (a b : re) : Needs c b -> Needs c (Seq a b).
Proof.
  intros Hb s k Hs. cbn [run]. apply (run_fails c); [| exact Hs].
  intros s1 H1. now apply Hb.
Qed.

Lemma replace_from_unchanged (c : ascii) (r : re) (tpl : list piece) :
  Needs c r ->
  forall fuel s,
    has_char c (rest s) = false ->
    (String.length (rest s) < fuel)%nat ->
    replace_from fuel r tpl s = rest s.
Proof.
  intros Hr. induction fuel as [|fuel IH]; intros s Hs Hlen; [lia |].
  cbn [replace_from]. unfold exec_here. rewrite Hr by exact Hs.
  destruct (advance s) as [[d s1]|] eqn:E.
  - destruct (advance_lacks c s d s1 Hs E) as [_ H1].
    unfold advance in E. destruct (rest s) as [|x x0] eqn:Er; [discriminate |].
    injection E as <- <-. cbn [rest] in *. rewrite IH; [reflexivity | exact H1 |].
    cbn [rest]. simpl in Hlen. lia.
  - unfold advance in E. destruct (rest s); [reflexivity | discriminate].
Qed.

Lemma replace_all_unchanged (c : ascii) (r : re) (tpl : list piece) (content : string) :
  Needs c r ->
  has_char c content = false ->
  replace_all r tpl content = content.
Proof.
  intros Hr Hc. unfold replace_all.
  rewrite (replace_from_unchanged c r tpl Hr); [reflexivity | exact Hc |].
  cbn [rest]. lia.
Qed.

Lemma replace_first_from_unchanged (c : ascii) (r : re) (tpl : list piece) :
  Needs c r ->
  forall fuel s,
    has_char c (rest s) = false ->
    (String.length (rest s) < fuel)%nat ->
    replace_first_from fuel r tpl s = rest s.
Proof.
  intros Hr. induction fuel as [|fuel IH]; intros s Hs Hlen; [lia |].
  cbn [replace_first_from]. unfold exec_here. rewrite Hr by exact Hs.
  destruct (advance s) as [[d s1]|] eqn:E.
  - destruct (advance_lacks c s d s1 Hs E) as [_ H1].
    unfold advance in E. destruct (rest s) as [|x x0] eqn:Er; [discriminate |].
    injection E as <- <-. cbn [rest] in *. rewrite IH; [reflexivity | exact H1 |].
    cbn [rest]. simpl in Hlen. lia.
  - unfold advance in E. destruct (rest s); [reflexivity | discriminate].
Qed.

End RegexFacts.

(** ** The normalizers on texts they have nothing to do with *)

Module NormalizerFacts.
Import JS Regex RegexLoop RegexFacts.

Lemma rules_need_a_line_break :
  Needs "010" ListNormalizer.rule1 /\ Needs "010" ListNormalizer.rule2 /\
  Needs "010" ListNormalizer.rule3 /\ Needs "010" ListNormalizer.rule4.
Proof.
  repeat split;
    repeat first [ apply Needs_Seq_l; exact (Needs_Lit "010") | apply Needs_Seq_r ].
Qed.

(** X6.  A text without a line break passes [preprocessMarkdownList]
    unchanged: every one of its four patterns spans a line break. *)
Theorem preprocessMarkdownList_single_line (content : string) :
  has_char "010" content = false ->
  ListNormalizer.preprocessMarkdownList content = content.
Proof.
  intros H. destruct rules_need_a_line_break as (H1 & H2 & H3 & H4).
  unfold ListNormalizer.preprocessMarkdownList. cbv zeta.
  rewrite (replace_all_unchanged "010" _ _ content H1 H).
  rewrite (replace_all_unchanged "010" _ _ content H2 H).
  rewrite (replace_all_unchanged "010" _ _ content H3 H).
  now rewrite (replace_all_unchanged "010" _ _ content H4 H).
Qed.

Lemma preprocessMarkdownList_single_line_witness :
  ListNormalizer.preprocessMarkdownList "<ul><li>- item one: continuation</li></ul>"
  = "<ul><li>- item one: continuation</li></ul>".
Proof.
  apply (preprocessMarkdownList_single_line "<ul><li>- item one: continuation</li></ul>").
  reflexivity.
Defined.

Lemma dataviewLine_needs_a_colon : Needs ":" Markdown.dataviewLine.
Proof.
  unfold Markdown.dataviewLine.
  repeat first [ apply Needs_Seq_l; exact (Needs_Lit ":") | apply Needs_Seq_r ].
Qed.

(** X7.  [preprocessMarkdown] leaves a text without a colon as it is,
    whether or not Dataview metadata lines are to be removed; and with the
    option off it leaves every text as it is. *)
Theorem preprocessMarkdown_without_colon (o : Settings.t) (markdown : string) :
  (Settings.removeDataviewMetadataLines o = false ->
   Markdown.preprocessMarkdown o markdown = markdown) /\
  (has_char ":" markdown = false ->
   Markdown.preprocessMarkdown o markdown = markdown).
Proof.
  unfold Markdown.preprocessMarkdown. cbv zeta. split.
  - now intros ->.
  - intros H. destruct (Settings.removeDataviewMetadataLines o); [| reflexivity].
    now apply (replace_all_unchanged ":" _ _ _ dataviewLine_needs_a_colon).
Qed.

Lemma preprocessMarkdown_without_colon_witness :
  Markdown.preprocessMarkdown
    {| Settings.removeFrontMatter := true;
       Settings.convertSvgToBitmap := true;
       Settings.removeDataviewMetadataLines := true;
       Settings.disableImageEmbedding := false;
       Settings.styleSheet := "";
       Settings.bareHtmlOnly := false;
       Settings.fileNameAsHeader := false;
       Settings.styleSheetStyle := "wechat-default" |}
    "# Heading"
  = "# Heading" /\
  Markdown.preprocessMarkdown Settings.DEFAULT_SETTINGS "status:: done" = "status:: done".
Proof.
  split.
  - apply (proj2 (preprocessMarkdown_without_colon _ "# Heading")). reflexivity.
  - apply (proj1 (preprocessMarkdown_without_colon Settings.DEFAULT_SETTINGS "status:: done")).
    reflexivity.
Defined.

(** With the option on, a metadata line is emptied; and as the second
    character class admits line breaks, so are the lines before it that
    hold no markup character. *)
Example preprocessMarkdown_metadata_line :
  Markdown.preprocessMarkdown
    {| Settings.removeFrontMatter := true;
       Settings.convertSvgToBitmap := true;
       Settings.removeDataviewMetadataLines := true;
       Settings.disableImageEmbedding := false;
       Settings.styleSheet := "";
       Settings.bareHtmlOnly := false;
       Settings.fileNameAsHeader := false;
       Settings.styleSheetStyle := "wechat-default" |}
    ("# Title" ++ String "010" ("intro" ++ String "010" ("status:: done" ++ String "010" "text")))
  = "# Title" ++ String "010" (String "010" "text").
Proof. vm_compute. reflexivity. Qed.

End NormalizerFacts.

(** ** The title, the template and the mime type *)

Module TitleFacts.
Import JS Regex RegexLoop RegexFacts StringFacts.

Lemma mdSuffix_here (pv : option ascii) (p : nat) (m d : ascii) :
  lower_ascii m = "m"%char -> lower_ascii d = "d"%char ->
  exec_here Session.mdSuffix (MState pv (String "." (String m (String d ""))) p nil)
  = Some (MState (Some d) "" (S (S (S p))) nil).
Proof.
  intros Hm Hd. unfold exec_here, Session.mdSuffix, Lit.
  cbn [run advance rest prev pos caps]. rewrite Ascii.eqb_refl, Hm, Hd.
  rewrite !Ascii.eqb_refl. reflexivity.
Qed.

Lemma mdSuffix_not_before (pv : option ascii) (p : nat) (c : ascii) (base : string) (m d : ascii) :
  exec_here Session.mdSuffix
    (MState pv (String c (base ++ String "." (String m (String d "")))) p nil) = None.
Proof.
  unfold exec_here, Session.mdSuffix, Lit.
  cbn [run advance rest prev pos caps].
  destruct (Ascii.eqb "." c); [| reflexivity].
  destruct base as [|c2 base]; cbn [String.append advance rest prev pos caps].
  - reflexivity.
  - destruct (Ascii.eqb (lower_ascii c2) "m"); [| reflexivity].
    destruct base as [|c3 base]; cbn [String.append advance rest prev pos caps].
    + reflexivity.
    + destruct (Ascii.eqb (lower_ascii c3) "d"); [| reflexivity].
      destruct base; reflexivity.
Qed.

Lemma strip_from (m d : ascii) :
  lower_ascii m = "m"%char -> lower_ascii d = "d"%char ->
  forall base fuel pv p,
    (String.length base < fuel)%nat ->
    replace_first_from fuel Session.mdSuffix nil
      (MState pv (base ++ String "." (String m (String d ""))) p nil) = base.
Proof.
  intros Hm Hd. induction base as [|c base IH]; intros fuel pv p Hlen;
    (destruct fuel as [|fuel]; [simpl in Hlen; lia |]); cbn [replace_first_from].
  - change ("" ++ String "." (String m (String d ""))) with (String "." (String m (String d ""))).
    rewrite mdSuffix_here by assumption. reflexivity.
  - change (String c base ++ String "." (String m (String d "")))
      with (String c (base ++ String "." (String m (String d "")))).
    rewrite mdSuffix_not_before. cbn [advance rest prev pos caps].
    rewrite IH; [reflexivity | simpl in Hlen; lia].
Qed.

(** X8.  The title [doCopy] derives from a file name is the name without
    a final [.md], in whichever case the extension is written; a [.md]
    earlier in the name stays, and a name without a dot is the title as it
    is. *)
Theorem title_drops_md_extension (base name : string) (m d : ascii) :
  (lower_ascii m = "m"%char -> lower_ascii d = "d"%char ->
   replace_first Session.mdSuffix nil (base ++ String "." (String m (String d ""))) = base) /\
  (has_char "." name = false -> replace_first Session.mdSuffix nil name = name).
Proof.
  split.
  - intros Hm Hd. unfold replace_first. apply strip_from; try assumption.
    rewrite length_append. simpl. lia.
  - intros Hdot. unfold replace_first.
    rewrite (replace_first_from_unchanged "." Session.mdSuffix nil).
    + reflexivity.
    + unfold Session.mdSuffix. apply Needs_Seq_l, Needs_Lit.
    + exact Hdot.
    + cbn [rest]. lia.
Qed.

Lemma title_drops_md_extension_witness :
  replace_first Session.mdSuffix nil ("notes.md.backup" ++ String "." (String "M" (String "d" "")))
  = "notes.md.backup" /\
  replace_first Session.mdSuffix nil "README" = "README".
Proof.
  destruct (title_drops_md_extension "notes.md.backup" "README" "M" "d") as [H1 H2].
  split; [apply H1; reflexivity | apply H2; reflexivity].
Defined.

(** X9.  For a title, a body and a style sheet without a dollar sign,
    [expandHtmlTemplate] returns the template with the title in [<title>],
    the style sheet after the Mermaid placeholder in [<style>], and the
    body in [<body>]. *)
Theorem expandHtmlTemplate_fills_each_placeholder (styleSheet html title : string) :
  has_char "$" title = false ->
  has_char "$" html = false ->
  has_char "$" styleSheet = false ->
  Template.expandHtmlTemplate styleSheet html title =
  Template.before_title ++ title ++ Template.title_to_stylesheet ++ styleSheet ++
  Template.stylesheet_to_body ++ html ++ Template.after_body.
Proof.
  intros Ht Hh Hs.
  destruct (TemplateFacts.expandHtmlTemplate_frame styleSheet html title)
    as (t & s & b & E & P).
  destruct (P Ht Hh Hs) as (-> & -> & ->). exact E.
Qed.

Lemma expandHtmlTemplate_fills_each_placeholder_witness :
  Template.expandHtmlTemplate "p { margin: 0 }" "<div><p>text</p></div>" "My note" =
  Template.before_title ++ "My note" ++ Template.title_to_stylesheet ++ "p { margin: 0 }" ++
  Template.stylesheet_to_body ++ "<div><p>text</p></div>" ++ Template.after_body.
Proof.
  apply (expandHtmlTemplate_fills_each_placeholder "p { margin: 0 }" "<div><p>text</p></div>"
           "My note"); reflexivity.
Defined.

Lemma guessMimeType_of_extension (path : string) :
  Mime.guessMimeType path = Mime.mimeOfExtension (Mime.getExtension path).
Proof. unfold Mime.guessMimeType. apply MimeFacts.mime_of_lower. Qed.

(** X10.  Whatever the path, the mime type [guessMimeType] gives starts
    with [image/]; and it is the SVG type exactly for the extensions [svg]
    and [svg+xml]. *)
Theorem guessMimeType_is_an_image_type (path : string) :
  startsWith (Mime.guessMimeType path) "image/" = true /\
  (Mime.isSvg (Mime.guessMimeType path) = true <->
   Mime.getExtension path = "svg" \/ Mime.getExtension path = "svg+xml").
Proof.
  rewrite guessMimeType_of_extension. generalize (Mime.getExtension path). intros e.
  unfold Mime.mimeOfExtension, Mime.isSvg.
  destruct (String.eqb_spec e "") as [-> | Hne].
  { split; [reflexivity |]. split; [discriminate | intros [H | H]; discriminate]. }
  destruct (String.eqb_spec e "svg") as [-> | Hsvg].
  { split; [reflexivity |]. split; [now left | reflexivity]. }
  destruct (String.eqb_spec e "jpg") as [-> | Hjpg].
  { split; [reflexivity |]. split; [discriminate | intros [H | H]; discriminate]. }
  split; [apply (TemplateFacts.isPrefix_append "image/" e) |].
  split.
  - intros H. apply String.eqb_eq in H. right.
    change ("image/" ++ e = "image/" ++ "svg+xml") in H.
    cbn [String.append] in H. now injection H.
  - intros [H | ->]; [contradiction | reflexivity].
Qed.

End TitleFacts.

(** ** The clean-up passes of [transformHTML] *)

Module CleanupFacts.
Import JS Async Dom Images Tree.

Lemma removeDescendants_Element (p : string -> attributes -> bool)
    (t : string) (a : attributes) (ks : list node) :
  removeDescendants p (Element t a ks) =
  Element t a
    (flat_map (fun k => match k with
                        | TextNode _ => k :: nil
                        | Element t' a' _ =>
                            if p t' a' then nil else removeDescendants p k :: nil
                        end) ks).
Proof.
  cbn [removeDescendants]. f_equal.
  induction ks as [|k ks IH]; [reflexivity |].
  cbn [flat_map]. rewrite IH.
  destruct k as [d | t' a' ks']; [reflexivity |].
  destruct (p t' a'); reflexivity.
Qed.

Lemma allDescendants_cons (q : string -> attributes -> bool)
    (t : string) (a : attributes) (k : node) (ks : list node) :
  allDescendants q (Element t a (k :: ks)) =
  match k with TextNode _ => true | Element t' a' _ => q t' a' end
  && allDescendants q k && allDescendants q (Element t a ks).
Proof. reflexivity. Qed.

Lemma allDescendants_always (q : string -> attributes -> bool) :
  (forall t a, q t a = true) -> forall n, allDescendants q n = true.
Proof.
  intros Hq n. induction n as [d | t a ks IH] using ImagesFacts.node_induction; [reflexivity |].
  induction IH as [|k ks Hk _ IHks]; [reflexivity |].
  rewrite allDescendants_cons, Hk, IHks.
  destruct k; [reflexivity | now rewrite Hq].
Qed.

Lemma allDescendants_mono (q1 q2 : string -> attributes -> bool) :
  (forall t a, q1 t a = true -> q2 t a = true) ->
  forall n, allDescendants q1 n = true -> allDescendants q2 n = true.
Proof.
  intros Hq n. induction n as [d | t a ks IH] using ImagesFacts.node_induction; [reflexivity |].
  induction IH as [|k ks Hk _ IHks]; [reflexivity |].
  rewrite !allDescendants_cons. intros H.
  apply andb_true_iff in H as [H H3]. apply andb_true_iff in H as [H1 H2].
  rewrite (Hk H2), (IHks H3).
  destruct k; [reflexivity | now rewrite (Hq _ _ H1)].
Qed.

(** After a removal, every element left is one the removal does not
    select, or one that had the property before. *)
Lemma removeDescendants_all (p q : string -> attributes -> bool) :
  forall n,
    allDescendants (fun t a => p t a || q t a) n = true ->
    allDescendants q (removeDescendants p n) = true.
Proof.
  intros n. induction n as [d | t a ks IH] using ImagesFacts.node_induction; [reflexivity |].
  rewrite removeDescendants_Element.
  induction IH as [|k ks Hk _ IHks]; [reflexivity |].
  rewrite allDescendants_cons. intros H.
  apply andb_true_iff in H as [H H3]. apply andb_true_iff in H as [H1 H2].
  specialize (IHks H3). specialize (Hk H2).
  cbn [flat_map].
  destruct k as [d | t' a' ks'].
  - cbn [app]. rewrite allDescendants_cons. exact IHks.
  - destruct (p t' a') eqn:Ep.
    + exact IHks.
    + cbn [app]. rewrite allDescendants_cons, Hk, IHks.
      rewrite removeDescendants_Element. cbn [orb] in H1. now rewrite H1.
Qed.

Lemma removeDescendants_gone (p : string -> attributes -> bool) (n : node) :
  allDescendants (fun t a => negb (p t a)) (removeDescendants p n) = true.
Proof.
  apply removeDescendants_all, allDescendants_always.
  intros t a. now destruct (p t a).
Qed.

Lemma removeDescendants_keeps (p q : string -> attributes -> bool) (n : node) :
  allDescendants q n = true -> allDescendants q (removeDescendants p n) = true.
Proof.
  intros H. apply removeDescendants_all.
  revert H. apply allDescendants_mono. intros t a ->. apply orb_true_r.
Qed.

Lemma updateDescendants_root (p : string -> attributes -> bool)
    (f : attributes -> attributes) (t : string) (a : attributes) (ks : list node) :
  exists ks', updateDescendants p f (Element t a ks) = Element t a ks'.
Proof. eexists. reflexivity. Qed.

Lemma updateDescendants_all (p q : string -> attributes -> bool)
    (f : attributes -> attributes) :
  forall n,
    allDescendants (fun t a => q t (if p t a then f a else a)) n = true ->
    allDescendants q (updateDescendants p f n) = true.
Proof.
  intros n. induction n as [d | t a ks IH] using ImagesFacts.node_induction; [reflexivity |].
  induction IH as [|k ks Hk _ IHks]; [reflexivity |].
  rewrite allDescendants_cons. intros H.
  apply andb_true_iff in H as [H H3]. apply andb_true_iff in H as [H1 H2].
  specialize (IHks H3). specialize (Hk H2).
  cbn [updateDescendants List.map] in IHks |- *.
  rewrite allDescendants_cons, IHks, andb_true_r.
  destruct k as [d | t' a' ks']; [reflexivity |].
  destruct (updateDescendants_root p f t' a' ks') as [ks'' E].
  rewrite E in Hk |- *. rewrite H1.
  cbn [allDescendants] in Hk |- *. exact Hk.
Qed.

Lemma getAttribute_removeAttribute (name : string) (a : attributes) :
  getAttribute name (removeAttribute name a) = None.
Proof.
  induction a as [|[n v] a IH]; [reflexivity |].
  cbn [removeAttribute]. destruct (String.eqb n name) eqn:E; [exact IH |].
  cbn [getAttribute]. now rewrite E.
Qed.

Lemma checkbox_ends_disabled (t : string) (a : attributes) :
  checkboxDisabled t (if isCheckbox t a then setAttribute "disabled" "disabled" a else a) = true.
Proof.
  unfold checkboxDisabled. destruct (isCheckbox t a) eqn:E.
  - rewrite StylesFacts.getAttribute_setAttribute. apply implb_true_r.
  - now rewrite E.
Qed.

Lemma isFrontMatter_disabled (t : string) (a : attributes) :
  isFrontMatter t (setAttribute "disabled" "disabled" a) = isFrontMatter t a.
Proof.
  unfold isFrontMatter, hasClass, classList.
  now rewrite StylesFacts.getAttribute_setAttribute_other by discriminate.
Qed.

Lemma cleanup_root (o : Settings.t) (t : string) (a : attributes) (ks : list node) :
  exists ks', cleanup o (Element t a ks) = Element t (removeAttribute "style" a) ks'.
Proof.
  unfold cleanup.
  assert (exists ks1,
             (if Settings.removeFrontMatter o
              then removeDescendants isFrontMatter (Element t (removeAttribute "style" a) ks)
              else Element t (removeAttribute "style" a) ks)
             = Element t (removeAttribute "style" a) ks1) as [ks1 ->].
  { destruct (Settings.removeFrontMatter o); [rewrite removeDescendants_Element |];
      eexists; reflexivity. }
  destruct (updateDescendants_root isCheckbox (setAttribute "disabled" "disabled") t
              (removeAttribute "style" a) ks1) as [ks2 ->].
  rewrite !removeDescendants_Element. eexists. reflexivity.
Qed.

(** X11.  What the synchronous passes of [transformHTML] leave: below the
    root there is no [button], no element of class [collapse-indicator]
    and none of class [snw-reference]; every checkbox carries
    [disabled="disabled"]; with [removeFrontMatter] there is no element of
    class [frontmatter] or [frontmatter-container]; and the root keeps its
    tag and its attributes other than [style], which it no longer has.
    No later pass brings back what an earlier one removed. *)
Theorem cleanup_postconditions (o : Settings.t) (element : node) :
  allDescendants (fun t _ => negb (String.eqb t "BUTTON")) (cleanup o element) = true /\
  allDescendants (fun _ a => negb (hasClass "collapse-indicator" a)) (cleanup o element) = true /\
  allDescendants (fun _ a => negb (hasClass "snw-reference" a)) (cleanup o element) = true /\
  allDescendants checkboxDisabled (cleanup o element) = true /\
  allDescendants (fun t a => negb (Settings.removeFrontMatter o && isFrontMatter t a))
                 (cleanup o element) = true /\
  match element with
  | TextNode _ => cleanup o element = element
  | Element t a _ =>
      exists ks', cleanup o element = Element t (removeAttribute "style" a) ks' /\
                  getAttribute "style" (removeAttribute "style" a) = None
  end.
Proof.
  repeat split.
  - unfold cleanup. apply removeDescendants_keeps.
    apply (removeDescendants_gone (fun t _ => String.eqb t "BUTTON")).
  - unfold cleanup. do 2 apply removeDescendants_keeps.
    apply (removeDescendants_gone (fun _ a => hasClass "collapse-indicator" a)).
  - unfold cleanup. apply (removeDescendants_gone (fun _ a => hasClass "snw-reference" a)).
  - unfold cleanup. do 3 apply removeDescendants_keeps.
    apply updateDescendants_all, allDescendants_always, checkbox_ends_disabled.
  - unfold cleanup. do 3 apply removeDescendants_keeps.
    apply updateDescendants_all.
    destruct (Settings.removeFrontMatter o).
    + cbn [andb].
      apply (allDescendants_mono (fun t a => negb (isFrontMatter t a))).
      * intros t a H. destruct (isCheckbox t a); [now rewrite isFrontMatter_disabled | exact H].
      * apply removeDescendants_gone.
    + now apply allDescendants_always.
  - destruct element as [d | t a ks];
      [unfold cleanup; destruct (Settings.removeFrontMatter o); reflexivity |].
    destruct (cleanup_root o t a ks) as [ks' E]. exists ks'.
    split; [exact E | apply getAttribute_removeAttribute].
Qed.

End CleanupFacts.

(** ** What [embedImages] changes, and why it fails *)

Module EmbeddingFacts.
Import JS Async Dom Mime Images Tree.

Lemma removeAttribute_setAttribute (name v : string) (a : attributes) :
  removeAttribute name (setAttribute name v a) = removeAttribute name a.
Proof.
  induction a as [|[n w] a IH]; cbn [setAttribute removeAttribute].
  - now rewrite String.eqb_refl.
  - destruct (String.eqb n name) eqn:E; cbn [removeAttribute]; rewrite E;
      [reflexivity | now rewrite IH].
Qed.

Lemma sourcedSelf_only_src (W : World) (o : Settings.t) (t : string) (a : attributes) :
  (if String.eqb t "IMG" then removeAttribute "src" (sourcedSelf W o t a)
   else sourcedSelf W o t a) =
  (if String.eqb t "IMG" then removeAttribute "src" a else a).
Proof.
  unfold sourcedSelf. destruct (String.eqb t "IMG"); [| reflexivity].
  destruct (embedImage W o (src_of W a)) as [p|]; [| reflexivity].
  destruct (outcome p) as [v | e |]; try reflexivity.
  apply removeAttribute_setAttribute.
Qed.

Lemma sourcedIn_only_src (W : World) (o : Settings.t) (n : node) :
  withoutImgSrc (sourcedIn W o n) = withoutImgSrc n.
Proof.
  induction n as [d | t a ks IH] using ImagesFacts.node_induction; [reflexivity |].
  cbn [sourcedIn withoutImgSrc]. rewrite sourcedSelf_only_src. f_equal.
  rewrite List.map_map.
  induction IH as [|k ks Hk _ IHks]; [reflexivity |].
  cbn [List.map]. now rewrite Hk, IHks.
Qed.

Lemma textContent_withoutImgSrc (n : node) :
  textContent (withoutImgSrc n) = textContent n.
Proof.
  induction n as [d | t a ks IH] using ImagesFacts.node_induction; [reflexivity |].
  cbn [withoutImgSrc textContent].
  induction IH as [|k ks Hk _ IHks]; [reflexivity |].
  cbn [List.map fold_right]. now rewrite Hk, IHks.
Qed.

(** X12.  When [embedImages] succeeds, the tree it gives differs from
    the one it was given in nothing but the [src] attributes of [img]
    elements: same elements, same order, same other attributes, same
    text. *)
Theorem embedImages_changes_only_img_src (W : World) (o : Settings.t) (n n' : node) :
  embedImages W o n = Fulfilled n' ->
  withoutImgSrc n' = withoutImgSrc n /\ textContent n' = textContent n.
Proof.
  intros H.
  assert (withoutImgSrc n' = withoutImgSrc n) as E.
  { destruct n as [d | t a ks]; [now injection H as <- |].
    cbn [embedImages] in H.
    destruct (all (List.flat_map (pushedIn W o) ks)) as [vs | e |];
      cbn [await] in H; try discriminate.
    injection H as <-. cbn [withoutImgSrc]. f_equal.
    rewrite List.map_map. apply List.map_ext. intros k. apply sourcedIn_only_src. }
  split; [exact E |].
  now rewrite <- (textContent_withoutImgSrc n'), E, textContent_withoutImgSrc.
Qed.

Lemma embedImages_changes_only_img_src_witness :
  withoutImgSrc
    (Element "DIV" nil
       (Element "P" nil (TextNode "see " :: nil) ::
        Element "IMG" (("src", Demo.png) :: ("alt", "ok") :: nil) nil :: nil))
  = withoutImgSrc
      (Element "DIV" nil
         (Element "P" nil (TextNode "see " :: nil) ::
          Element "IMG" (("src", "https://example.org/ok.png") :: ("alt", "ok") :: nil) nil
          :: nil)) /\
  textContent
    (Element "DIV" nil
       (Element "P" nil (TextNode "see " :: nil) ::
        Element "IMG" (("src", Demo.png) :: ("alt", "ok") :: nil) nil :: nil))
  = textContent
      (Element "DIV" nil
         (Element "P" nil (TextNode "see " :: nil) ::
          Element "IMG" (("src", "https://example.org/ok.png") :: ("alt", "ok") :: nil) nil
          :: nil)).
Proof.
  apply (embedImages_changes_only_img_src Demo.world Settings.DEFAULT_SETTINGS).
  reflexivity.
Defined.

(** *** Why the pass fails *)

(** The three ways [replaceImageSource] is rejected, and when. *)
Lemma replaceImageSource_rejection (W : World) (o : Settings.t) (src : string) (e : JsError) :
  outcome (replaceImageSource W o src) = Rejected e ->
  (e = URIError "URI malformed" /\ settles (replaceImageSource W o src) = SameTask 0) \/
  (exists path,
      e = Error ("File not found: " ++ path) /\ vaultFile W path = None /\
      settles (replaceImageSource W o src) = SameTask 1) \/
  (exists path read,
      vaultFile W path = Some read /\ outcome read = Rejected e /\
      settles (replaceImageSource W o src) = later (later (settles read))).
Proof.
  unfold replaceImageSource.
  destruct (decodeURI W src) as [p|]; [| intros [= <-]; left; now split].
  destruct (startsWith p (vaultLocalUriPrefix W)).
  - cbv zeta. destruct (decodeURI W _) as [path|]; [| intros [= <-]; left; now split].
    unfold readFromVault. destruct (vaultFile W path) as [read|] eqn:Efile.
    + cbn [awaitT outcome settles].
      destruct (outcome read) as [data | e' |] eqn:Er; cbn [await].
      * destruct (isSvg _ && _); [| discriminate].
        intros H. now apply ImagesFacts.imageToDataUri_not_rejected in H.
      * intros [= <-]. right; right. now exists path, read.
      * discriminate.
    + cbn [awaitT outcome settles await]. intros [= <-]. right; left. now exists path.
  - cbn [outcome]. intros H. now apply ImagesFacts.imageToDataUri_not_rejected in H.
Qed.

Lemma embedImage_pushes (W : World) (o : Settings.t) (src : string) (p : timed string) :
  embedImage W o src = Some p -> p = replaceImageSource W o src.
Proof.
  unfold embedImage. destruct src as [|c s]; [discriminate |].
  destruct (startsWith (String c s) "data:image/svg+xml" && Settings.convertSvgToBitmap o);
    [now intros [= <-] |].
  destruct (negb (startsWith (String c s) "data:")); [now intros [= <-] | discriminate].
Qed.

(** Every promise of the batch comes from [replaceImageSource]. *)
Lemma pushedIn_sources (W : World) (o : Settings.t) (p : timed string) :
  forall n, List.In p (pushedIn W o n) -> exists src, p = replaceImageSource W o src.
Proof.
  induction n as [d | t a ks IH] using ImagesFacts.node_induction; intros Hin;
    [destruct Hin |].
  cbn [pushedIn] in Hin. apply List.in_app_or in Hin as [Hin | Hin].
  - destruct (String.eqb t "IMG"); [| destruct Hin].
    destruct (embedImage W o (src_of W a)) as [q|] eqn:E; [| destruct Hin].
    destruct Hin as [<- | []]. exists (src_of W a). now apply embedImage_pushes.
  - apply List.in_flat_map in Hin as (k & Hk & Hp).
    rewrite List.Forall_forall in IH. exact (IH k Hk Hp).
Qed.



(** X19.  A source that [decodeURI] refuses decides the reason: its
    promise is rejected when [replaceImageSource] returns, before the
    promise of any image that is missing from the vault or cannot be read,
    wherever those stand in the document; [embedImages] then fails with
    the [URIError]. *)
Theorem malformed_source_takes_precedence (W : World) (o : Settings.t)
    (t : string) (a : attributes) (ks : list node) (src : string) :
  decodeURI W src = None ->
  List.In (replaceImageSource W o src) (List.flat_map (pushedIn W o) ks) ->
  embedImages W o (Element t a ks) = Rejected (URIError "URI malformed").
Proof.
  intros Hsrc Hin.
  assert (outcome (replaceImageSource W o src) = Rejected (URIError "URI malformed") /\
          settles (replaceImageSource W o src) = SameTask 0) as [Ho Hs]
    by (unfold replaceImageSource; rewrite Hsrc; now split).
  cbn [embedImages]. unfold all.
  destruct (first_rejection (List.flat_map (pushedIn W o) ks)) as [[m e]|] eqn:F.
  - destruct (ImagesFacts.first_rejection_some _ m e F) as [(x & Hx & Hxe & Hxm) Hmin].
    specialize (Hmin _ _ Hin Ho). rewrite Hs in Hmin.
    assert (m = SameTask 0) as ->.
    { destruct m as [k|k]; cbn [before] in Hmin; [| discriminate].
      destruct k; [reflexivity | discriminate]. }
    apply List.in_flat_map in Hx as (k & _ & Hx).
    destruct (pushedIn_sources W o x k Hx) as [src' ->].
    destruct (replaceImageSource_rejection W o src' e Hxe)
      as [[-> _] | [(path & _ & _ & Hm) | (path & read & _ & _ & Hm)]].
    + reflexivity.
    + rewrite Hxm in Hm. discriminate.
    + rewrite Hxm in Hm. destruct (settles read); discriminate.
  - pose proof (ImagesFacts.first_rejection_none _ F) as Hn.
    rewrite List.Forall_forall in Hn. now destruct (Hn _ Hin (URIError "URI malformed")).
Qed.

(** An image that cannot be read, one that is missing from the vault, and
    after them one whose source ends in a stray percent sign. *)
Lemma malformed_source_takes_precedence_witness :
  embedImages Demo.world Settings.DEFAULT_SETTINGS
    (Element "DIV" nil
       (Element "IMG" (("src", "app://local/home/me/vault/locked.png") :: nil) nil ::
        Element "IMG" (("src", "app://local/home/me/vault/missing.png") :: nil) nil ::
        Element "IMG" (("src", "https://example.org/100%.png") :: nil) nil :: nil))
  = Rejected (URIError "URI malformed").
Proof.
  apply (malformed_source_takes_precedence Demo.world Settings.DEFAULT_SETTINGS "DIV" nil _
           "https://example.org/100%.png").
  - reflexivity.
  - right. right. left. reflexivity.
Defined.

(** Without it, a file that is missing from the vault comes before one
    that cannot be read. *)
Example embedImages_first_rejection_in_time :
  embedImages Demo.world Settings.DEFAULT_SETTINGS
    (Element "DIV" nil
       (Element "IMG" (("src", "app://local/home/me/vault/locked.png") :: nil) nil ::
        Element "IMG" (("src", "app://local/home/me/vault/missing.png") :: nil) nil :: nil))
  = Rejected (Error "File not found: missing.png").
Proof. vm_compute. reflexivity. Qed.

End EmbeddingFacts.

(** ** The cascade on the whole document *)

Module CascadeFacts.
Import JS Async Dom Styles Tree StylesFacts.

Lemma styleChildren_unselected (B : Browser) (style : StyleRuleSet) (selector : string)
    (doc0 : node) (ks : list node) :
  List.Forall (fun k => forall path ancestors,
                   stylePass B style selector doc0 path ancestors k = k) ks ->
  forall path ancestors i, styleChildren B style selector doc0 path ancestors i ks = ks.
Proof.
  induction 1 as [|k ks Hk _ IH]; intros path ancestors i; [reflexivity |].
  cbn [styleChildren]. fold (styleChildren B style selector doc0 path ancestors).
  now rewrite Hk, IH.
Qed.

Lemma stylePass_unselected (B : Browser) (style : StyleRuleSet) (selector : string)
    (doc0 : node) :
  (forall path, selects B selector doc0 path = false) ->
  forall n path ancestors, stylePass B style selector doc0 path ancestors n = n.
Proof.
  intros Hsel.
  induction n as [d | t a ks IH] using ImagesFacts.node_induction; intros path ancestors;
    [reflexivity |].
  rewrite stylePass_Element. cbv zeta. rewrite Hsel.
  now rewrite styleChildren_unselected.
Qed.

(** X14.  The turn of a selector that selects no element of the
    document leaves the document as it is. *)
Theorem turn_without_match (B : Browser) (style : StyleRuleSet) (doc : node)
    (selector : string) :
  (forall path, selects B selector doc path = false) ->
  turn B style doc selector = doc.
Proof.
  intros Hsel. unfold turn. destruct (skipped selector); [reflexivity |].
  now apply stylePass_unselected.
Qed.

Lemma turn_without_match_witness :
  turn Demo.browser (("h1", "font-size:20px") :: nil) Demo.document "h1" = Demo.document.
Proof.
  apply (turn_without_match Demo.browser (("h1", "font-size:20px") :: nil) Demo.document "h1").
  intros path. cbn [selects Demo.browser]. unfold Demo.document.
  repeat (destruct path as [|[|[|[|?]]] path]; cbn [nodeAt nth_error]; try reflexivity).
Defined.

Lemma stylePass_wraps (B : Browser) (style : StyleRuleSet) (selector : string)
    (doc0 : node) (a : attributes) (ks : list node) :
  forall path n prefix ancestors,
    nodeAt n path = Some (Element "LI" a ks) ->
    selects B selector doc0 (prefix ++ path)%list = true ->
    outsideSelectedLi B selector doc0 prefix n path ->
    nodeAt (stylePass B style selector doc0 prefix ancestors n) path =
    Some (Element "LI"
            (setAttribute "style"
               (or_undef (getAttribute "style" a) "" ++ "; " ++ text_of (get style "li")) a)
            (Element "P" nil ks :: nil)).
Proof.
  induction path as [|i path IH]; intros n prefix ancestors Hn Hsel Hli.
  - cbn [nodeAt] in Hn. injection Hn as ->.
    rewrite app_nil_r in Hsel.
    rewrite stylePass_Element. cbv zeta. rewrite Hsel. reflexivity.
  - destruct n as [d | t0 a0 ks0]; [discriminate |].
    cbn [nodeAt] in Hn. cbn [outsideSelectedLi] in Hli.
    destruct (nth_error ks0 i) as [k|] eqn:Ek; [| discriminate].
    destruct Hli as [Hwrap Hli].
    assert (exists a0',
               stylePass B style selector doc0 prefix ancestors (Element t0 a0 ks0) =
               Element t0 a0'
                 (styleChildren B style selector doc0 prefix (a0 :: ancestors) 0 ks0))
      as [a0' ->].
    { rewrite stylePass_Element. cbv zeta.
      destruct (selects B selector doc0 prefix); [| eexists; reflexivity].
      cbn [andb] in Hwrap. unfold styleElement. rewrite Hwrap.
      destruct (String.eqb t0 "IMG" && inImageGrid (a0 :: ancestors));
        eexists; reflexivity. }
    cbn [nodeAt]. rewrite (styleChildren_nth _ _ _ _ _ _ _ 0%nat i k Ek).
    cbn [Nat.add]. apply IH; try assumption.
    now rewrite <- app_assoc.
Qed.

(** X15.  In the turn of a selector that selects it, a list item that
    is not inside another list item selected in the same turn ends with a
    single child, a [p] without attributes that holds the children the
    item had, unchanged, and with the declarations of the rule [li]
    (whatever the selector) after its previous style. *)
Theorem turn_wraps_list_item (B : Browser) (style : StyleRuleSet)
    (selector : string) (doc : node) (path : list nat) (a : attributes) (ks : list node) :
  skipped selector = false ->
  nodeAt doc path = Some (Element "LI" a ks) ->
  selects B selector doc path = true ->
  outsideSelectedLi B selector doc nil doc path ->
  nodeAt (turn B style doc selector) path =
  Some (Element "LI"
          (setAttribute "style"
             (or_undef (getAttribute "style" a) "" ++ "; " ++ text_of (get style "li")) a)
          (Element "P" nil ks :: nil)).
Proof.
  intros Hskip Hn Hsel Hli. unfold turn. rewrite Hskip.
  now apply stylePass_wraps.
Qed.

Lemma turn_wraps_list_item_witness :
  nodeAt (turn Demo.browser (("li", "margin:4px") :: ("strong", "color:blue") :: nil)
            DemoList.listDocument "li")
         (1 :: 0 :: 0 :: nil)%nat
  = Some (Element "LI"
            (setAttribute "style"
               (or_undef (getAttribute "style" (("class", "item") :: nil)) "" ++ "; " ++
                text_of (get (("li", "margin:4px") :: ("strong", "color:blue") :: nil) "li"))
               (("class", "item") :: nil))
            (Element "P" nil
               (Element "STRONG" nil (TextNode "bold" :: nil) :: TextNode " and plain" :: nil)
             :: nil)).
Proof.
  apply (turn_wraps_list_item Demo.browser
           (("li", "margin:4px") :: ("strong", "color:blue") :: nil) "li"
           DemoList.listDocument (1 :: 0 :: 0 :: nil)%nat).
  - reflexivity.
  - reflexivity.
  - reflexivity.
  - cbn. repeat split; reflexivity.
Defined.

Lemma textContent_Element (t : string) (a : attributes) (ks : list node) :
  textContent (Element t a ks) = fold_right (fun k acc => textContent k ++ acc) "" ks.
Proof. reflexivity. Qed.

Lemma styleChildren_text (B : Browser) (style : StyleRuleSet) (selector : string)
    (doc0 : node) (ks : list node) :
  List.Forall (fun k => forall path ancestors,
                   textContent (stylePass B style selector doc0 path ancestors k) =
                   textContent k) ks ->
  forall path ancestors i,
    fold_right (fun k acc => textContent k ++ acc) ""
      (styleChildren B style selector doc0 path ancestors i ks) =
    fold_right (fun k acc => textContent k ++ acc) "" ks.
Proof.
  induction 1 as [|k ks Hk _ IH]; intros path ancestors i; [reflexivity |].
  cbn [styleChildren]. fold (styleChildren B style selector doc0 path ancestors).
  cbn [fold_right]. now rewrite Hk, IH.
Qed.

Lemma stylePass_text (B : Browser) (style : StyleRuleSet) (selector : string) (doc0 : node) :
  forall n path ancestors,
    textContent (stylePass B style selector doc0 path ancestors n) = textContent n.
Proof.
  induction n as [d | t a ks IH] using ImagesFacts.node_induction; intros path ancestors;
    [reflexivity |].
  rewrite stylePass_Element. cbv zeta.
  pose proof (styleChildren_text B style selector doc0 ks IH path (a :: ancestors) 0%nat) as E.
  destruct (selects B selector doc0 path).
  - destruct (styleElement style selector ancestors t a);
      rewrite !textContent_Element; try exact E.
    cbn [fold_right]. rewrite textContent_Element.
    apply StringFacts.append_nil_r.
  - rewrite !textContent_Element. exact E.
Qed.

(** X16.  The cascade changes no text: the text content of the document
    after all the turns is the text content of the parsed document. *)
Theorem cascade_keeps_the_text (B : Browser) (style : StyleRuleSet) (doc : node) :
  textContent (cascade B style doc) = textContent doc.
Proof.
  unfold cascade. generalize (keys style). intros sels. revert doc.
  induction sels as [|sel sels IH]; intros doc; [reflexivity |].
  cbn [fold_left]. rewrite IH. unfold turn.
  destruct (skipped sel); [reflexivity | apply stylePass_text].
Qed.

End CascadeFacts.

(** ** Progress reports and extensions *)

Module ReportingFacts.
Import JS Async Mime Batch StringFacts.

Lemma count_run (total : nat) (evs : list settlement) :
  count (run total evs) = List.length evs.
Proof.
  induction evs as [|ev evs IH] using rev_ind; [reflexivity |].
  rewrite BatchFacts.run_snoc, List.length_app, Nat.add_1_r.
  destruct ev; cbn [settle count]; now rewrite IH.
Qed.

(** X17.  Progress is reported once on entry, with 0, and once for each
    promise that settles, fulfilled or rejected alike: the [k]-th
    settlement reports [k * 100 / total], whatever the order in which the
    promises settle. *)
Theorem progress_is_reported_per_settlement (total : nat) (evs : list settlement) :
  List.rev (reported (run total evs)) =
  (inject_Z 0 :: List.map (fun c => percent c total) (List.seq 1 (List.length evs)))%list.
Proof.
  induction evs as [|ev evs IH] using rev_ind; [reflexivity |].
  rewrite BatchFacts.run_snoc, List.length_app, Nat.add_1_r.
  rewrite List.seq_S, List.map_app. cbn [List.map Nat.add].
  assert (reported (settle total (run total evs) ev) =
          (percent (S (List.length evs)) total :: reported (run total evs))%list) as ->.
  { destruct ev; cbn [settle reported]; now rewrite count_run. }
  cbn [List.rev]. rewrite IH. reflexivity.
Qed.

Lemma split_last (c : ascii) (s : string) :
  has_char c s = false \/
  exists d t, s = d ++ String c t /\ has_char c t = false.
Proof.
  induction s as [|x s IH]; [now left |].
  destruct IH as [Hno | (d & t & -> & Ht)].
  - destruct (Ascii.eqb_spec x c) as [-> | Hne].
    + right. exists "", s. split; [reflexivity | exact Hno].
    + left. cbn [has_char]. rewrite Hno.
      now destruct (Ascii.eqb_spec x c).
  - right. exists (String x d), t. split; [reflexivity | exact Ht].
Qed.

Lemma lower_ascii_mark (d : ascii) :
  Ascii.eqb (lower_ascii d) "." = Ascii.eqb d "." /\
  Ascii.eqb (lower_ascii d) "/" = Ascii.eqb d "/" /\
  lower_ascii (lower_ascii d) = lower_ascii d.
Proof.
  destruct d as [[] [] [] [] [] [] [] []]; vm_compute; repeat split.
Qed.

Lemma toLowerCase_marks (s : string) :
  has_char "." (toLowerCase s) = has_char "." s /\
  has_char "/" (toLowerCase s) = has_char "/" s /\
  toLowerCase (toLowerCase s) = toLowerCase s.
Proof.
  induction s as [|d s (IH1 & IH2 & IH3)]; [repeat split |].
  destruct (lower_ascii_mark d) as (H1 & H2 & H3).
  cbn [toLowerCase has_char]. now rewrite H1, H2, H3, IH1, IH2, IH3.
Qed.

(** X18.  Whatever the path, the extension [getExtension] gives holds no
    dot and no slash, and is in lower case. *)
Theorem getExtension_is_a_bare_word (path : string) :
  has_char "." (getExtension path) = false /\
  has_char "/" (getExtension path) = false /\
  toLowerCase (getExtension path) = getExtension path.
Proof.
  assert (exists seg, lastSegment path seg) as [seg Hseg].
  { destruct (split_last "/" path) as [H | (d & t & -> & Ht)].
    - exists path. split; [exact H | now left].
    - exists t. split; [exact Ht | right; now exists d]. }
  unfold getExtension. cbv zeta.
  rewrite (MimeFacts.fileName_lastSegment _ _ Hseg).
  destruct Hseg as [Hslash _].
  destruct (split_last "." seg) as [H | (base & ext & -> & Hext)].
  - rewrite MimeFacts.extension_absent by exact H. repeat split.
  - rewrite MimeFacts.extension_present by exact Hext.
    rewrite has_char_append in Hslash. apply orb_false_iff in Hslash as [_ Hslash].
    cbn [has_char] in Hslash. apply orb_false_iff in Hslash as [_ Hslash].
    destruct (toLowerCase_marks ext) as (H1 & H2 & H3).
    now rewrite H1, H2, H3.
Qed.

End ReportingFacts.
